(** * The upload lifecycle of the simulated transcription service (server.js)

    A shallow embedding of [src/server.js]: the in-memory [uploads] map, the
    request handlers of [POST /uploads], [GET /uploads/:uploadId/status] and
    [GET /uploads], and the interval callback of [simulateProcessing].

    Modelling conventions.
    - A JavaScript number is a [number]: an exact rational, [Infinity],
      [-Infinity] or [NaN].  Rounding of IEEE doubles and the sign of zero
      are abstracted away; division by zero and [NaN] comparisons are kept.
    - [Math.random()] and [Date.now()] are inputs of the function that calls
      them, one named input per call site.
    - A callback of the event loop runs to completion, so a handler or a tick
      is one function from the state before it to the state after it.
    - [new Date(t).toISOString()] is kept symbolic as [JIso t]; it raises a
      [RangeError] outside the range of valid time values.
    - A plain object is a finite map from property names to values; the
      [uploads] [Map], whose iteration order the listing shows, is an
      association list in insertion order. *)

From Stdlib Require Import ZArith QArith Qround DecimalString DecimalNat Sorted.
From Stdlib Require Import Lia Lqa.
From stdpp Require Import base gmap strings list.
Local Open Scope string_scope.
Local Open Scope Z_scope.
Set Warnings "-register-all".

(** ** JavaScript numbers *)

Inductive number : Type :=
| Fin (q : Q)
| PosInf
| NegInf
| NaN.

Definition Qlt_bool (x y : Q) : bool := negb (Qle_bool y x).

(** [a / b] on finite operands. *)
Definition num_div (a b : Q) : number :=
  if Qeq_bool b 0 then
    if Qlt_bool 0 a then PosInf
    else if Qlt_bool a 0 then NegInf
    else NaN
  else Fin (a / b).

(** [x * k] for a finite [k]. *)
Definition num_mul (x : number) (k : Q) : number :=
  match x with
  | Fin q => Fin (q * k)
  | PosInf => if Qlt_bool 0 k then PosInf else if Qlt_bool k 0 then NegInf else NaN
  | NegInf => if Qlt_bool 0 k then NegInf else if Qlt_bool k 0 then PosInf else NaN
  | NaN => NaN
  end.

(** [Math.round]: the nearest integer, halves rounded up. *)
Definition Math_round (x : number) : number :=
  match x with
  | Fin q => Fin (inject_Z (Qfloor (q + (1 # 2))))
  | other => other
  end.

(** [Math.min(k, x)] for a finite [k]. *)
Definition Math_min (k : Q) (x : number) : number :=
  match x with
  | Fin q => if Qle_bool k q then Fin k else Fin q
  | PosInf => Fin k
  | NegInf => NegInf
  | NaN => NaN
  end.

(** [x > k] and [x >= k] for a finite [k]; both are false on [NaN]. *)
Definition num_gtb (x : number) (k : Q) : bool :=
  match x with
  | Fin q => Qlt_bool k q
  | PosInf => true
  | NegInf | NaN => false
  end.

Definition num_geb (x : number) (k : Q) : bool :=
  match x with
  | Fin q => Qle_bool k q
  | PosInf => true
  | NegInf | NaN => false
  end.

(** ** JavaScript values *)

Inductive jsval : Type :=
| JUndefined
| JNull
| JBool (b : bool)
| JNum (n : number)
| JStr (s : string)
| JIso (t : Z)
| JArr (l : list jsval)
| JObj (o : gmap string jsval).

(** A plain object. *)
Abbreviation object := (gmap string jsval).

(** A [Map] is an association list in insertion order. *)
Fixpoint alist_get {A : Type} (k : string) (m : list (string * A)) : option A :=
  match m with
  | [] => None
  | (k', v) :: m' => if String.eqb k k' then Some v else alist_get k m'
  end.

(** Assignment: an existing key keeps its place, a new one goes last. *)
Fixpoint alist_set {A : Type} (k : string) (v : A) (m : list (string * A))
  : list (string * A) :=
  match m with
  | [] => [(k, v)]
  | (k', v') :: m' =>
      if String.eqb k k' then (k', v) :: m' else (k', v') :: alist_set k v m'
  end.

(** [{...o, ...src}]: the properties of [src] override those of [o]. *)
Definition obj_spread (o src : object) : object := src ∪ o.

(** ** Upload records *)

Inductive Status : Type := queued | processing | completed | failed.

Definition Status_eqb (a b : Status) : bool :=
  match a, b with
  | queued, queued | processing, processing
  | completed, completed | failed, failed => true
  | _, _ => false
  end.

Definition Status_name (s : Status) : string :=
  match s with
  | queued => "queued"
  | processing => "processing"
  | completed => "completed"
  | failed => "failed"
  end.

Definition terminal (s : Status) : bool :=
  match s with
  | completed | failed => true
  | queued | processing => false
  end.

(** The object literal of [uploadRecord]; [completedAt] is absent until the
    record completes. *)
Record upload : Type := mkUpload {
  id : string;
  filename : string;
  mimeType : string;
  size : Z;
  metadata : object;
  status : Status;
  progress : number;
  createdAt : Z;
  completesAt : Q;
  willFail : bool;
  transcript : option string;
  error : option string;
  completedAt : option Z
}.

Definition set_status (v : Status) (r : upload) : upload :=
  mkUpload (id r) (filename r) (mimeType r) (size r) (metadata r) v
    (progress r) (createdAt r) (completesAt r) (willFail r)
    (transcript r) (error r) (completedAt r).

Definition set_progress (v : number) (r : upload) : upload :=
  mkUpload (id r) (filename r) (mimeType r) (size r) (metadata r) (status r)
    v (createdAt r) (completesAt r) (willFail r)
    (transcript r) (error r) (completedAt r).

Definition set_transcript (v : option string) (r : upload) : upload :=
  mkUpload (id r) (filename r) (mimeType r) (size r) (metadata r) (status r)
    (progress r) (createdAt r) (completesAt r) (willFail r)
    v (error r) (completedAt r).

Definition set_error (v : option string) (r : upload) : upload :=
  mkUpload (id r) (filename r) (mimeType r) (size r) (metadata r) (status r)
    (progress r) (createdAt r) (completesAt r) (willFail r)
    (transcript r) v (completedAt r).

Definition set_completedAt (v : option Z) (r : upload) : upload :=
  mkUpload (id r) (filename r) (mimeType r) (size r) (metadata r) (status r)
    (progress r) (createdAt r) (completesAt r) (willFail r)
    (transcript r) (error r) v.

Definition set_willFail (v : bool) (r : upload) : upload :=
  mkUpload (id r) (filename r) (mimeType r) (size r) (metadata r) (status r)
    (progress r) (createdAt r) (completesAt r) v
    (transcript r) (error r) (completedAt r).

(** ** generateMockTranscript *)

Definition sentences : list string :=
  [ "Hello and welcome to this recording.";
    "Today we'll be discussing some important topics.";
    "Let me start by introducing the main points.";
    "First, we need to consider the background.";
    "The key insight here is quite interesting.";
    "Moving on to the next section.";
    "This brings us to our conclusion.";
    "Thank you for listening." ].

(** [l.slice(0, e)]: a negative [e] counts from the end, a large one is
    clamped to the length. *)
Definition slice0 {A : Type} (l : list A) (e : Z) : list A :=
  let len := Z.of_nat (List.length l) in
  let k := if e <? 0 then Z.max (len + e) 0 else Z.min e len in
  firstn (Z.to_nat k) l.

(** [rnd] is the value of [Math.random()]. *)
Definition generateMockTranscript (rnd : Q) : string :=
  String.concat " " (slice0 sentences (3 + Qfloor (rnd * 5))).

(** ** The interval callback of simulateProcessing *)

Definition updateInterval : Z := 1000.

Definition failure_message : string :=
  "Transcription failed: Unable to process audio".

(** What one run of the callback reads from its environment: [Date.now()]
    for [elapsed], [Date.now()] for [completedAt], and the [Math.random()]
    of [generateMockTranscript]. *)
Record tick_env : Type := mkTickEnv {
  now_elapsed : Z;
  now_completed : Z;
  rnd_transcript : Q
}.

Definition compute_progress (totalTime : Q) (now : Z) (record : upload) : number :=
  let elapsed := now - createdAt record in
  Math_min 100 (Math_round (num_mul (num_div (inject_Z elapsed) totalTime) 100)).

(** [if (record.status === 'queued' && progress > 5) record.status = 'processing'] *)
Definition promote (p : number) (record : upload) : upload :=
  if Status_eqb (status record) queued && num_gtb p 5
  then set_status processing record
  else record.

(** The body of [if (progress >= 100)] after [clearInterval]. *)
Definition finish (env : tick_env) (record : upload) : upload :=
  if willFail record then
    let record := set_status failed record in
    let record := set_error (Some failure_message) record in
    set_progress (progress record) record
  else
    let record := set_status completed record in
    let record := set_progress (Fin 100) record in
    let record := set_completedAt (Some (now_completed env)) record in
    set_transcript (Some (generateMockTranscript (rnd_transcript env))) record.

(** One run of the callback on the record it found; the boolean tells whether
    [clearInterval] was called. *)
Definition tick (totalTime : Q) (env : tick_env) (record : upload) : upload * bool :=
  let p := compute_progress totalTime (now_elapsed env) record in
  let record := promote p record in
  let record := set_progress p record in
  if num_geb p 100 then (finish env record, true) else (record, false).

(** ** The shared collection and the intervals *)

Definition Map_get (k : string) (m : list (string * upload)) : option upload :=
  alist_get k m.
Definition Map_set (k : string) (v : upload) (m : list (string * upload))
  : list (string * upload) := alist_set k v m.
Definition Map_values (m : list (string * upload)) : list upload := map snd m.

(** An interval created by [setInterval]: the closure holds [uploadId] and
    [totalTime]; [cleared] records [clearInterval]. *)
Record interval : Type := mkInterval {
  iv_uploadId : string;
  iv_totalTime : Q;
  iv_cleared : bool
}.

Record engine : Type := mkEngine {
  uploads : list (string * upload);
  intervals : list interval
}.

Definition simulateProcessing (uploadId : string) (st : engine) : engine :=
  match Map_get uploadId (uploads st) with
  | None => st
  | Some upload =>
      let totalTime := (completesAt upload - inject_Z (createdAt upload))%Q in
      mkEngine (uploads st)
        (intervals st ++ [mkInterval uploadId totalTime false])
  end.

(** The callback on the shared collection: the record is looked up by id and
    mutated in place, which is an update of the entry under the same key. *)
Definition interval_callback (uploadId : string) (totalTime : Q)
    (env : tick_env) (m : list (string * upload))
  : list (string * upload) * bool :=
  match Map_get uploadId m with
  | None => (m, true)
  | Some record =>
      let (record', cleared) := tick totalTime env record in
      (Map_set uploadId record' m, cleared)
  end.

Fixpoint replace_nth {A : Type} (n : nat) (x : A) (l : list A) : list A :=
  match n, l with
  | _, [] => []
  | O, _ :: l' => x :: l'
  | S n', y :: l' => y :: replace_nth n' x l'
  end.

(** The timer of the [n]-th interval fires; a cleared interval has no
    callback left to run. *)
Definition fire (n : nat) (env : tick_env) (st : engine) : engine :=
  match nth_error (intervals st) n with
  | None => st
  | Some iv =>
      if iv_cleared iv then st
      else
        let (m, cleared) :=
          interval_callback (iv_uploadId iv) (iv_totalTime iv) env (uploads st) in
        mkEngine m
          (replace_nth n (mkInterval (iv_uploadId iv) (iv_totalTime iv) cleared)
             (intervals st))
  end.

(** The advancement task of one record: the record and whether its interval
    has been cleared. *)
Record task : Type := mkTask {
  t_record : upload;
  t_cleared : bool
}.

Definition step (totalTime : Q) (t : task) (env : tick_env) : task :=
  if t_cleared t then t
  else let (record, cleared) := tick totalTime env (t_record t) in
       mkTask record cleared.

Definition run (totalTime : Q) (envs : list tick_env) (t : task) : task :=
  fold_left (step totalTime) envs t.

(** The records a task passes through, one after each timer event. *)
Fixpoint history (totalTime : Q) (envs : list tick_env) (t : task) : list upload :=
  match envs with
  | [] => []
  | env :: envs' =>
      let t' := step totalTime t env in
      t_record t' :: history totalTime envs' t'
  end.

(** ** Requests, replies and the boundary *)

Definition SUPPORTED_AUDIO_TYPES : list string :=
  [ "audio/mp4"; "audio/x-m4a"; "audio/m4a"; "audio/wav"; "audio/x-wav" ].

Record Config : Type := mkConfig {
  uploadFailureRate : Q;
  timeoutRate : Q;
  processingFailureRate : Q;
  minProcessingTime : Q;
  maxProcessingTime : Q
}.

Definition CONFIG : Config :=
  mkConfig (15 # 100) (1 # 10) (1 # 10) 5000 20000.

(** A file parsed by multer with memory storage. *)
Record file : Type := mkFile {
  originalname : string;
  mimetype : string;
  file_size : Z;
  buffer : string
}.

Record files : Type := mkFiles {
  audio : option (list file);
  config : option (list file)
}.

Record request : Type := mkRequest {
  req_files : option files;
  req_body : object
}.

(** What a handler does with [res], or the exception it raises. *)
Inductive reply : Type :=
| Send (code : Z) (body : jsval)
| Throw (name : string).

Record outcome : Type := mkOutcome {
  out_reply : reply;
  out_stall : Q;
  out_engine : engine
}.

Definition reply_code (r : reply) : option Z :=
  match r with
  | Send c _ => Some c
  | Throw _ => None
  end.

Definition error_body (message : string) : jsval :=
  JObj {[ "error" := JStr message ]}.

(** [l[i]] for a number [i] that is an integer. *)
Definition array_get {A : Type} (l : list A) (i : Z) : option A :=
  if i <? 0 then None else nth_error l (Z.to_nat i).

(** The [(status, message)] pairs of a simulated upload failure. *)
Definition errors : list (Z * string) :=
  [ (500, "Internal server error");
    (503, "Service temporarily unavailable") ].

(** Falsy values of [||]. *)
Definition truthy (v : jsval) : bool :=
  match v with
  | JUndefined | JNull | JBool false | JNum NaN => false
  | JNum (Fin q) => negb (Qeq_bool q 0)
  | JStr EmptyString => false
  | _ => true
  end.

(** [o.k || d]; a missing property reads as [undefined]. *)
Definition get_or (o : object) (k : string) (d : jsval) : jsval :=
  match o !! k with
  | Some v => if truthy v then v else d
  | None => d
  end.

Definition index_key (n : nat) : string :=
  NilZero.string_of_uint (Nat.to_uint n).

Fixpoint indexed {A : Type} (f : A -> jsval) (n : nat) (l : list A)
  : list (string * jsval) :=
  match l with
  | [] => []
  | x :: l' => (index_key n, f x) :: indexed f (S n) l'
  end.

(** The own enumerable properties that [...v] copies. *)
Definition own_props (v : jsval) : object :=
  match v with
  | JObj o => o
  | JArr l => list_to_map (indexed (fun x => x) 0%nat l)
  | JStr s =>
      list_to_map
        (indexed (fun c => JStr (String c EmptyString)) 0%nat (String.list_ascii_of_string s))
  | _ => ∅
  end.

(** The largest time value of a valid [Date]. *)
Definition max_time : Z := 8640000000000000.

(** [new Date(t).toISOString()]; [None] is the [RangeError] of an invalid
    date, which [new Date(undefined)] is too. *)
Definition toISOString (t : option Z) : option jsval :=
  match t with
  | Some z => if (- max_time <=? z) && (z <=? max_time) then Some (JIso z) else None
  | None => None
  end.

Definition of_nullable (s : option string) : jsval :=
  match s with
  | Some x => JStr x
  | None => JNull
  end.

(** The [response] object of the status handler. *)
Definition status_response (upload : upload) : option object :=
  match toISOString (Some (createdAt upload)) with
  | None => None
  | Some created =>
      let response : object :=
        {[ "uploadId" := JStr (id upload);
           "status" := JStr (Status_name (status upload));
           "progress" := JNum (progress upload);
           "filename" := JStr (filename upload);
           "metadata" := JObj (metadata upload);
           "createdAt" := created ]} in
      let response :=
        if Status_eqb (status upload) completed then
          match toISOString (completedAt upload) with
          | None => None
          | Some done =>
              Some (<["completedAt" := done]>
                      (<["transcript" := of_nullable (transcript upload)]> response))
          end
        else Some response in
      match response with
      | None => None
      | Some response =>
          if Status_eqb (status upload) failed
          then Some (<["error" := of_nullable (error upload)]> response)
          else Some response
      end
  end.

(** One element of the listing. *)
Definition summary (u : upload) : option object :=
  match toISOString (Some (createdAt u)) with
  | None => None
  | Some created =>
      Some {[ "uploadId" := JStr (id u);
              "filename" := JStr (filename u);
              "status" := JStr (Status_name (status u));
              "progress" := JNum (progress u);
              "createdAt" := created ]}
  end.

Fixpoint map_summary (l : list upload) : option (list jsval) :=
  match l with
  | [] => Some []
  | u :: l' =>
      match summary u with
      | None => None
      | Some o =>
          match map_summary l' with
          | None => None
          | Some os => Some (JObj o :: os)
          end
      end
  end.

(** [Engine.Get]: lines 184 to 208 of the status handler. *)
Definition lookup_status (uploadId : string) (st : engine) : reply :=
  match Map_get uploadId (uploads st) with
  | None => Send 404 (error_body "Upload not found")
  | Some upload =>
      match status_response upload with
      | None => Throw "RangeError"
      | Some response => Send 200 (JObj response)
      end
  end.

(** [GET /uploads]. *)
Definition list_uploads (st : engine) : outcome :=
  match map_summary (Map_values (uploads st)) with
  | None => mkOutcome (Throw "RangeError") 0 st
  | Some list => mkOutcome (Send 200 (JArr list)) 0 st
  end.

(** The draws of the status handler, in call order. *)
Record get_env : Type := mkGetEnv {
  g_rnd_timeout : Q;
  g_rnd_slow : Q;
  g_rnd_delay : Q
}.

(** The draws and readings of the upload handler, in call order. *)
Record post_env : Type := mkPostEnv {
  rnd_timeout : Q;
  rnd_failure : Q;
  rnd_error : Q;
  rnd_slow : Q;
  rnd_delay : Q;
  uuid : string;
  now : Z;
  rnd_time : Q;
  rnd_willFail : Q
}.

(** The object literal of lines 144 to 157. *)
Definition uploadRecord (uploadId : string) (audioFile : file)
    (metadata : object) (now : Z) (processingTime : Q) (willFail : bool) : upload :=
  mkUpload uploadId (originalname audioFile) (mimetype audioFile)
    (file_size audioFile) metadata queued (Fin 0) now
    (inject_Z now + processingTime)%Q willFail None None None.

(** [req.files?.config?.[0]] *)
Definition config_file (req : request) : option file :=
  match req_files req with
  | Some fs => match config fs with
               | Some l => array_get l 0
               | None => None
               end
  | None => None
  end.

Section Handlers.

Variable cfg : Config.

(** [JSON.parse(configFile.buffer.toString('utf8'))]; [None] is the
    [SyntaxError] of a text that is not JSON. *)
Variable JSON_parse : string -> option jsval.

(** [GET /uploads/:uploadId/status]. *)
Definition get_status (env : get_env) (uploadId : string) (st : engine) : outcome :=
  if Qlt_bool (g_rnd_timeout env) (timeoutRate cfg) then
    mkOutcome (Send 504 (error_body "Gateway timeout")) 35000 st
  else
    let stall :=
      if Qlt_bool (g_rnd_slow env) (2 # 10)
      then (1000 + g_rnd_delay env * 2000)%Q else 0%Q in
    mkOutcome (lookup_status uploadId st) stall st.

(** Lines 124 to 137: the metadata of an accepted upload. *)
Definition build_metadata (req : request) : object :=
  let body := req_body req in
  let metadata :=
    obj_spread
      {[ "language" := get_or body "language" (JStr "en");
         "speakerCount" := get_or body "speakerCount" (JNum (Fin 1)) ]}
      body in
  let configFile := config_file req in
  match configFile with
  | Some cf =>
      match JSON_parse (buffer cf) with
      | Some config => obj_spread metadata (own_props config)
      | None => metadata
      end
  | None => metadata
  end.

(** Lines 139 to 168: the upload is stored and its task started. *)
Definition accept (env : post_env) (req : request) (audioFile : file)
    (st : engine) : reply * engine :=
  let metadata := build_metadata req in
  let uploadId := uuid env in
  let now := now env in
  let processingTime :=
    (minProcessingTime cfg
     + rnd_time env * (maxProcessingTime cfg - minProcessingTime cfg))%Q in
  let record :=
    uploadRecord uploadId audioFile metadata now processingTime
      (Qlt_bool (rnd_willFail env) (processingFailureRate cfg)) in
  let st := mkEngine (Map_set uploadId record (uploads st)) (intervals st) in
  let st := simulateProcessing uploadId st in
  (Send 202
     (JObj {[ "uploadId" := JStr uploadId;
              "status" := JStr "queued";
              "message" := JStr "Upload accepted and queued for transcription" ]}),
   st).

(** Lines 110 to 122: [files.audio[0]] when it exists. *)
Definition audio_of (req : request) : option file :=
  match req_files req with
  | None => None
  | Some fs =>
      match audio fs with
      | None => None
      | Some l => array_get l 0
      end
  end.

Definition supported (mime : string) : bool :=
  existsb (String.eqb mime) SUPPORTED_AUDIO_TYPES.

(** [POST /uploads]. *)
Definition post_uploads (env : post_env) (req : request) (st : engine) : outcome :=
  if Qlt_bool (rnd_timeout env) (timeoutRate cfg) then
    mkOutcome (Send 504 (error_body "Gateway timeout")) 35000 st
  else if Qlt_bool (rnd_failure env) (uploadFailureRate cfg) then
    let i := Qfloor (rnd_error env * inject_Z (Z.of_nat (List.length errors))) in
    match array_get errors i with
    | None => mkOutcome (Throw "TypeError") 0 st
    | Some error => mkOutcome (Send (fst error) (error_body (snd error))) 0 st
    end
  else
    let stall :=
      if Qlt_bool (rnd_slow env) (2 # 10)
      then (1000 + rnd_delay env * 2000)%Q else 0%Q in
    match audio_of req with
    | None => mkOutcome (Send 400 (error_body "No audio file uploaded")) stall st
    | Some audioFile =>
        if negb (supported (mimetype audioFile)) then
          mkOutcome
            (Send 400
               (error_body
                  ("Unsupported audio format: " ++ mimetype audioFile
                   ++ ". Supported formats: M4A, WAV")))
            stall st
        else
          let (r, st') := accept env req audioFile st in
          mkOutcome r stall st'
    end.

End Handlers.

(** ** The whole server as a transition system *)

Inductive event : Type :=
| EvPost (env : post_env) (req : request)
| EvStatus (env : get_env) (uploadId : string)
| EvList
| EvFire (n : nat) (env : tick_env).

Definition initial : engine := mkEngine [] [].

Section System.

Variable cfg : Config.
Variable JSON_parse : string -> option jsval.

Definition handle (st : engine) (ev : event) : engine :=
  match ev with
  | EvPost env req => out_engine (post_uploads cfg JSON_parse env req st)
  | EvStatus env uploadId => out_engine (get_status cfg env uploadId st)
  | EvList => out_engine (list_uploads st)
  | EvFire n env => fire n env st
  end.

Definition run_events (evs : list event) (st : engine) : engine :=
  fold_left handle evs st.

End System.

(** ** Predicates used by the statements *)

Definition valid_time (z : Z) : Prop := - max_time <= z <= max_time.

(** Every [Date.now()] an event reads is a valid time value. *)
Definition valid_event (ev : event) : Prop :=
  match ev with
  | EvPost env _ => valid_time (now env)
  | EvFire _ env => valid_time (now_completed env)
  | EvStatus _ _ | EvList => True
  end.

Definition dates_valid (r : upload) : Prop :=
  valid_time (createdAt r) /\
  (status r = completed -> exists t, completedAt r = Some t /\ valid_time t).

Definition engine_ok (st : engine) : Prop :=
  Forall (fun kv => dates_valid (snd kv)) (uploads st).

(** A value of [Math.random()]. *)
Definition unit_interval (u : Q) : Prop := (0 <= u)%Q /\ (u < 1)%Q.

(** The state of a task started on a record created with [willFail = wf]. *)
Definition task_inv (wf : bool) (t : task) : Prop :=
  let r := t_record t in
  willFail r = wf /\
  if t_cleared t then
    (wf = true /\ status r = failed /\ error r = Some failure_message
     /\ transcript r = None /\ completedAt r = None)
    \/ (wf = false /\ status r = completed /\ error r = None
        /\ (exists s, transcript r = Some s) /\ (exists z, completedAt r = Some z)
        /\ progress r = Fin 100)
  else
    terminal (status r) = false /\ transcript r = None /\ error r = None
    /\ completedAt r = None.

(** The defaults of the metadata. *)
Definition default_metadata : object :=
  {[ "language" := JStr "en"; "speakerCount" := JNum (Fin 1) ]}.

(** The request without its config file. *)
Definition without_config (req : request) : request :=
  mkRequest
    (match req_files req with
     | Some fs => Some (mkFiles (audio fs) None)
     | None => None
     end)
    (req_body req).

(** A request that validation rejects: no audio file, or an unsupported
    format. *)
Definition bad_request (req : request) : Prop :=
  match audio_of req with
  | None => True
  | Some audioFile => supported (mimetype audioFile) = false
  end.

(** Two records that differ at most in [willFail]. *)
Definition same_except_willFail (r1 r2 : upload) : Prop :=
  r2 = set_willFail (willFail r2) r1.

Definition stores_same_except_willFail (m1 m2 : list (string * upload)) : Prop :=
  Forall2 (fun a b => fst a = fst b /\ same_except_willFail (snd a) (snd b)) m1 m2.

(** Two tasks started on records that differ only in [willFail] and fed the
    same timer events: both run on records that still differ only in
    [willFail], or both are over. *)
Definition twins (t1 t2 : task) : Prop :=
  (t_cleared t1 = false /\ t_cleared t2 = false
   /\ same_except_willFail (t_record t1) (t_record t2))
  \/ (t_cleared t1 = true /\ t_cleared t2 = true
      /\ terminal (status (t_record t1)) = true
      /\ terminal (status (t_record t2)) = true).

Section Blob.

Variable JSON_parse : string -> option jsval.

(** The properties that a supplied config file contributes: those of the
    parsed value, none when the text does not parse. *)
Definition config_props (req : request) : object :=
  match config_file req with
  | Some cf =>
      match JSON_parse (buffer cf) with
      | Some config => own_props config
      | None => ∅
      end
  | None => ∅
  end.

End Blob.

(** The clock readings of successive ticks never go back, starting from
    [last]. *)
Fixpoint clock_ok (last : Z) (envs : list tick_env) : Prop :=
  match envs with
  | [] => True
  | env :: envs' => last <= now_elapsed env /\ clock_ok (now_elapsed env) envs'
  end.

(** The percentage a tick computes [e] milliseconds after creation, when it
    is a number. *)
Definition percent_at (T : Q) (e : Z) : Z :=
  if Qeq_bool T 0 then 100
  else Z.min 100 (Qfloor (inject_Z e / T * 100 + (1 # 2))).

(** The timer events of the [n]-th interval among the events of the server. *)
Definition ticks_of (n : nat) (evs : list event) : list tick_env :=
  flat_map
    (fun ev =>
       match ev with
       | EvFire m env => if Nat.eqb m n then [env] else []
       | _ => []
       end)
    evs.

(** An upload draws an id other than [k]. *)
Definition fresh_for (k : string) (ev : event) : Prop :=
  match ev with
  | EvPost env _ => uuid env <> k
  | _ => True
  end.

(** The [n]-th interval, with total time [T], is the only interval of the
    record [k]. *)
Definition owns (k : string) (n : nat) (T : Q) (st : engine) : Prop :=
  (exists c, nth_error (intervals st) n = Some (mkInterval k T c))
  /\ forall m iv, nth_error (intervals st) m = Some iv -> iv_uploadId iv = k -> m = n.

(** The task that the engine holds for the record [k] and the interval [n]. *)
Definition task_at (k : string) (n : nat) (st : engine) : option task :=
  match Map_get k (uploads st), nth_error (intervals st) n with
  | Some r, Some iv => Some (mkTask r (iv_cleared iv))
  | _, _ => None
  end.

(** The place of a status in the lifecycle. *)
Definition rank (s : Status) : nat :=
  match s with
  | queued => 0
  | processing => 1
  | completed | failed => 2
  end.

(** What the fields of a task's record look like while it runs and once its
    interval is cleared. *)
Definition task_shape (t : task) : Prop :=
  let r := t_record t in
  if t_cleared t then
    progress r = Fin 100
    /\ ((status r = failed /\ completedAt r = None
         /\ error r = Some failure_message)
        \/ (status r = completed /\ (exists z, completedAt r = Some z)
            /\ exists u, transcript r = Some (generateMockTranscript u)))
  else terminal (status r) = false /\ completedAt r = None.

(** The fields a tick never writes are the same in both records. *)
Definition same_upload (r r' : upload) : Prop :=
  id r' = id r /\ filename r' = filename r /\ mimeType r' = mimeType r
  /\ size r' = size r /\ metadata r' = metadata r
  /\ createdAt r' = createdAt r /\ completesAt r' = completesAt r
  /\ willFail r' = willFail r.

(** ** Sample inputs *)

Definition sample_audio : file := mkFile "memo.wav" "audio/wav" 2048 "RIFF".

Definition sample_record (processingTime : Q) (wf : bool) : upload :=
  uploadRecord "u1" sample_audio ∅ 1000 processingTime wf.

(** A parser that knows two texts, enough to exercise both branches of the
    [try]. *)
Definition sample_parse (text : string) : option jsval :=
  if String.eqb text "{}" then Some (JObj ∅)
  else if String.eqb text "[7]" then Some (JArr [JNum (Fin 7)])
  else None.

(** The text [{"language":"fr"}] of a config file, and a parser that knows
    it. *)
Definition quote : string := String (Ascii.ascii_of_nat 34) EmptyString.

Definition sample_config_text : string :=
  "{" ++ quote ++ "language" ++ quote ++ ":" ++ quote ++ "fr" ++ quote ++ "}".

Definition sample_parse_config (text : string) : option jsval :=
  if String.eqb text sample_config_text
  then Some (JObj {[ "language" := JStr "fr" ]})
  else None.

(** A number of whole milliseconds. *)
Definition whole_ms (q : Q) : Prop := exists z : Z, (q == inject_Z z)%Q.

(** * Properties *)

(** ** Numbers *)

Lemma Qlt_bool_iff (x y : Q) : Qlt_bool x y = true <-> (x < y)%Q.
Proof.
  unfold Qlt_bool. rewrite negb_true_iff. split.
  - intros H. apply Qnot_le_lt. intros Hle.
    apply Qle_bool_iff in Hle. congruence.
  - intros H. destruct (Qle_bool y x) eqn:E; [|reflexivity].
    apply Qle_bool_iff in E. exfalso. exact (Qlt_not_le _ _ H E).
Qed.

(** ** The advancement task of one record *)

Lemma step_cleared (T : Q) (t : task) (env : tick_env) :
  t_cleared t = true -> step T t env = t.
Proof. intros H. unfold step. now rewrite H. Qed.

Lemma run_cleared (T : Q) (envs : list tick_env) (t : task) :
  t_cleared t = true -> run T envs t = t.
Proof.
  revert t. induction envs as [|env envs IH]; intros t H; [reflexivity|].
  unfold run in *. simpl. rewrite step_cleared by assumption. now apply IH.
Qed.

Lemma history_cleared (T : Q) (envs : list tick_env) (t : task) :
  t_cleared t = true -> Forall (fun r => r = t_record t) (history T envs t).
Proof.
  intros H. induction envs as [|env envs IH]; simpl; [constructor|].
  rewrite step_cleared by assumption. constructor; [reflexivity | exact IH].
Qed.

Lemma task_inv_init uploadId audioFile md now pt wf :
  task_inv wf (mkTask (uploadRecord uploadId audioFile md now pt wf) false).
Proof. unfold task_inv; simpl. auto. Qed.

Lemma task_inv_step (wf : bool) (T : Q) (t : task) (env : tick_env) :
  task_inv wf t -> task_inv wf (step T t env).
Proof.
  intros Hinv. unfold step.
  destruct (t_cleared t) eqn:Hc; [exact Hinv|].
  unfold task_inv in Hinv. rewrite Hc in Hinv.
  destruct Hinv as (Hwf & Hterm & Htr & Herr & Hdone).
  unfold tick.
  set (p := compute_progress T (now_elapsed env) (t_record t)).
  assert (Hprom : forall r, willFail (promote p r) = willFail r
                        /\ transcript (promote p r) = transcript r
                        /\ error (promote p r) = error r
                        /\ completedAt (promote p r) = completedAt r
                        /\ (terminal (status r) = false ->
                            terminal (status (promote p r)) = false)).
  { intros r. unfold promote.
    destruct (Status_eqb (status r) queued && num_gtb p 5); simpl; auto. }
  destruct (Hprom (t_record t)) as (Pw & Pt & Pe & Pd & Ps).
  destruct (num_geb p 100) eqn:Hge.
  - unfold task_inv, finish; simpl. rewrite Pw, Hwf.
    destruct wf; simpl; rewrite ?Pw, ?Pt, ?Pe, ?Pd.
    + split; [assumption|]. left. auto.
    + split; [assumption|]. right. eauto 10.
  - unfold task_inv; simpl. rewrite Pw, Pt, Pe, Pd. auto.
Qed.

Lemma task_inv_run (wf : bool) (T : Q) (envs : list tick_env) (t : task) :
  task_inv wf t -> task_inv wf (run T envs t).
Proof.
  revert t. induction envs as [|env envs IH]; intros t H; [exact H|].
  unfold run in *. simpl. apply IH. now apply task_inv_step.
Qed.

(** C1. On the tick whose computed progress reaches 100 the task of a created
    record clears its interval and applies the outcome fixed at creation: with
    [willFail] the record becomes [failed] with the fixed error message and its
    transcript stays null; otherwise it becomes [completed] with progress 100,
    [completedAt] the time read in that tick, and a generated transcript. *)
Theorem tick_applies_outcome_at_100 :
  forall uploadId audioFile md now pt wf T envs env,
    let t := run T envs (mkTask (uploadRecord uploadId audioFile md now pt wf) false) in
    t_cleared t = false ->
    num_geb (compute_progress T (now_elapsed env) (t_record t)) 100 = true ->
    let r' := t_record (step T t env) in
    t_cleared (step T t env) = true /\
    (wf = true ->
     status r' = failed
     /\ error r' = Some "Transcription failed: Unable to process audio"
     /\ transcript r' = None) /\
    (wf = false ->
     status r' = completed
     /\ progress r' = Fin 100
     /\ completedAt r' = Some (now_completed env)
     /\ transcript r' = Some (generateMockTranscript (rnd_transcript env))).
Proof.
  intros uploadId audioFile md now0 pt wf T envs env t Hc Hge r'.
  assert (Hinv : task_inv wf t)
    by (apply task_inv_run, task_inv_init).
  unfold task_inv in Hinv. rewrite Hc in Hinv.
  destruct Hinv as (Hwf & _ & Htr & _ & _).
  subst r'. unfold step. rewrite Hc. unfold tick. rewrite Hge. simpl.
  assert (Hpw : forall p r, willFail (promote p r) = willFail r
                         /\ transcript (promote p r) = transcript r).
  { intros p r. unfold promote.
    destruct (Status_eqb (status r) queued && num_gtb p 5); simpl; auto. }
  destruct (Hpw (compute_progress T (now_elapsed env) (t_record t)) (t_record t))
    as (Pw & Pt).
  split; [reflexivity|]. unfold finish; simpl. rewrite Pw, Hwf.
  split; intros ->; simpl; rewrite ?Pt; auto.
Qed.

(** A record with [willFail] and a total time of 5 s, ticked 5 s after its creation. *)
Lemma tick_applies_outcome_at_100_witness :
  status (t_record (step 5000 (mkTask (sample_record 5000 true) false)
                      (mkTickEnv 6000 6001 (1 # 2)))) = failed
  /\ transcript (t_record (step 5000 (mkTask (sample_record 5000 true) false)
                            (mkTickEnv 6000 6001 (1 # 2)))) = None.
Proof.
  destruct (tick_applies_outcome_at_100 "u1" sample_audio ∅ 1000 5000 true 5000 []
              (mkTickEnv 6000 6001 (1 # 2)) eq_refl eq_refl) as (_ & H & _).
  destruct (H eq_refl) as (Hs & _ & Ht). split; [exact Hs | exact Ht].
Defined.

Lemma promote_keeps (p : number) (r : upload) :
  status (promote p r) = status r
  \/ (status r = queued /\ num_gtb p 5 = true /\ status (promote p r) = processing).
Proof.
  unfold promote. destruct (status r) eqn:Hs; simpl; auto.
  destruct (num_gtb p 5); simpl; auto.
Qed.

Lemma finish_terminal (env : tick_env) (r : upload) :
  terminal (status (finish env r)) = true.
Proof. unfold finish. destruct (willFail r); reflexivity. Qed.

Lemma never_processing_after_full_first_tick (T : Q) (r0 : upload)
    (env : tick_env) (envs : list tick_env) :
  status r0 <> processing ->
  num_geb (compute_progress T (now_elapsed env) r0) 100 = true ->
  Forall (fun r => status r <> processing)
    (r0 :: history T (env :: envs) (mkTask r0 false)).
Proof.
  intros H0 Hge. constructor; [exact H0|].
  simpl. unfold step at 1 2. simpl. unfold tick. rewrite Hge. simpl.
  set (r1 := finish env _).
  assert (Hr1 : terminal (status r1) = true) by apply finish_terminal.
  constructor; [intros E; rewrite E in Hr1; discriminate|].
  eapply Forall_impl; [apply history_cleared; reflexivity|].
  simpl. intros r -> E. rewrite E in Hr1. discriminate.
Qed.

(** Inside a tick that computes 100 on a [queued] record the first
    assignment does write [processing]; [finish] overwrites it before the
    callback returns. *)
Lemma promote_at_100 (r : upload) :
  status r = queued -> status (promote (Fin 100) r) = processing.
Proof. intros H. unfold promote. rewrite H. reflexivity. Qed.

(** C3. A tick moves a record into [processing] only from [queued], and only
    when the progress it computed is above 5 and below 100; a created record
    whose first tick computes 100 is never seen in [processing]. *)
Theorem queued_to_processing_guard :
  (forall T t env,
      status (t_record t) <> processing ->
      status (t_record (step T t env)) = processing ->
      status (t_record t) = queued
      /\ exists q, compute_progress T (now_elapsed env) (t_record t) = Fin q
                   /\ (5 < q)%Q /\ (q < 100)%Q)
  /\
  (forall uploadId audioFile md now pt wf T env envs,
      num_geb (compute_progress T (now_elapsed env)
                 (uploadRecord uploadId audioFile md now pt wf)) 100 = true ->
      Forall (fun r => status r <> processing)
        (uploadRecord uploadId audioFile md now pt wf
         :: history T (env :: envs)
              (mkTask (uploadRecord uploadId audioFile md now pt wf) false))).
Proof.
  split.
  - intros T t env Hne Hp. unfold step in Hp.
    destruct (t_cleared t); [contradiction|].
    unfold tick in Hp.
    set (p := compute_progress T (now_elapsed env) (t_record t)) in *.
    destruct (num_geb p 100) eqn:Hge; simpl in Hp.
    + pose proof (finish_terminal env (set_progress p (promote p (t_record t)))) as Ht.
      rewrite Hp in Ht. discriminate.
    + destruct (promote_keeps p (t_record t)) as [He | (Hq & Hgt & _)];
        [congruence|].
      split; [exact Hq|].
      destruct p as [q| | |]; simpl in Hgt, Hge; try discriminate.
      exists q. split; [reflexivity|]. split.
      * now apply Qlt_bool_iff.
      * apply Qnot_le_lt. intros Hle. apply Qle_bool_iff in Hle. congruence.
  - intros uploadId audioFile md now0 pt wf T env envs Hge.
    apply never_processing_after_full_first_tick; [discriminate | exact Hge].
Qed.

(** A first tick at 20% promotes; a first tick at 100% never shows [processing]. *)
Lemma queued_to_processing_guard_witness :
  status (sample_record 5000 false) = queued
  /\ Forall (fun r => status r <> processing)
       (sample_record 0 true
        :: history 0 [mkTickEnv 2000 2001 (1 # 2); mkTickEnv 3000 3001 (1 # 2)]
             (mkTask (sample_record 0 true) false)).
Proof.
  split.
  - refine (proj1 (proj1 queued_to_processing_guard 5000%Q
                     (mkTask (sample_record 5000 false) false)
                     (mkTickEnv 2000 2001 (1 # 2)) _ eq_refl)).
    discriminate.
  - exact (proj2 queued_to_processing_guard "u1" sample_audio ∅ 1000 0%Q true 0%Q
             (mkTickEnv 2000 2001 (1 # 2)) [mkTickEnv 3000 3001 (1 # 2)] eq_refl).
Defined.

Lemma alist_get_set_same {A : Type} (k : string) (v : A) (m : list (string * A)) :
  alist_get k (alist_set k v m) = Some v.
Proof.
  induction m as [|[k' v'] m IH]; simpl.
  - now rewrite String.eqb_refl.
  - destruct (String.eqb k k') eqn:E; simpl; rewrite E; [reflexivity | exact IH].
Qed.

Lemma alist_get_set_other {A : Type} (k k0 : string) (v : A) (m : list (string * A)) :
  k0 <> k -> alist_get k0 (alist_set k v m) = alist_get k0 m.
Proof.
  intros Hne. induction m as [|[k' v'] m IH]; simpl.
  - destruct (String.eqb k0 k) eqn:E; [|reflexivity].
    apply String.eqb_eq in E. contradiction.
  - destruct (String.eqb k k') eqn:E; simpl.
    + apply String.eqb_eq in E. subst k'.
      destruct (String.eqb k0 k) eqn:E0; [|reflexivity].
      apply String.eqb_eq in E0. contradiction.
    + destruct (String.eqb k0 k'); [reflexivity | exact IH].
Qed.

Lemma nth_error_replace_nth {A : Type} (n : nat) (x y : A) (l : list A) :
  nth_error l n = Some y -> nth_error (replace_nth n x l) n = Some x.
Proof.
  revert l. induction n as [|n IH]; intros [|z l] H; simpl in *;
    try discriminate; [reflexivity | now apply IH].
Qed.

(** A timer event of the engine is a [step] of the task on the stored record. *)
Lemma fire_runs_step (n : nat) (env : tick_env) (st : engine) (iv : interval)
    (r : upload) :
  nth_error (intervals st) n = Some iv ->
  Map_get (iv_uploadId iv) (uploads st) = Some r ->
  let t' := step (iv_totalTime iv) (mkTask r (iv_cleared iv)) env in
  Map_get (iv_uploadId iv) (uploads (fire n env st)) = Some (t_record t')
  /\ nth_error (intervals (fire n env st)) n
     = Some (mkInterval (iv_uploadId iv) (iv_totalTime iv) (t_cleared t')).
Proof.
  intros Hn Hg. unfold fire, step. rewrite Hn. simpl.
  destruct (iv_cleared iv) eqn:Hc.
  - simpl. rewrite Hg, Hn. split; [reflexivity|]. destruct iv; simpl in *. now subst.
  - unfold interval_callback. rewrite Hg.
    destruct (tick (iv_totalTime iv) env r) as [r' c]. simpl. split.
    + apply alist_get_set_same.
    + eapply nth_error_replace_nth; eassumption.
Qed.

(** A timer event writes no record but the one of its interval. *)
Lemma fire_keeps_other_records (n : nat) (env : tick_env) (st : engine)
    (iv : interval) (k : string) :
  nth_error (intervals st) n = Some iv -> k <> iv_uploadId iv ->
  Map_get k (uploads (fire n env st)) = Map_get k (uploads st).
Proof.
  intros Hn Hk. unfold fire. rewrite Hn.
  destruct (iv_cleared iv); [reflexivity|].
  unfold interval_callback.
  destruct (Map_get (iv_uploadId iv) (uploads st)) as [r|]; [|reflexivity].
  destruct (tick (iv_totalTime iv) env r) as [r' c]. simpl.
  now apply alist_get_set_other.
Qed.

(** C5. While a created record is not terminal its transcript and error are
    both null; once it is terminal exactly one of them is non-null and no later
    timer event changes any field of the record; the timer of a cleared
    interval leaves the whole engine as it is. *)
Theorem terminal_fields_settled :
  forall uploadId audioFile md now pt wf T envs,
    let t := run T envs (mkTask (uploadRecord uploadId audioFile md now pt wf) false) in
    let r := t_record t in
    (terminal (status r) = false -> transcript r = None /\ error r = None)
    /\ (terminal (status r) = true ->
        ((transcript r <> None /\ error r = None)
         \/ (transcript r = None /\ error r <> None))
        /\ forall envs', run T envs' t = t)
    /\ (forall st n iv env,
           nth_error (intervals st) n = Some iv -> iv_cleared iv = true ->
           fire n env st = st).
Proof.
  intros uploadId audioFile md now0 pt wf T envs t r.
  assert (Hinv : task_inv wf t) by (apply task_inv_run, task_inv_init).
  unfold task_inv in Hinv. fold r in Hinv. destruct Hinv as (_ & Hinv).
  split; [|split].
  - intros Hnt. destruct (t_cleared t).
    + destruct Hinv as [(_ & Hs & _) | (_ & Hs & _)]; rewrite Hs in Hnt; discriminate.
    + tauto.
  - intros Ht. destruct (t_cleared t) eqn:Hc.
    + split; [|intros envs'; now apply run_cleared].
      destruct Hinv as [(_ & _ & He & Htr & _) | (_ & _ & He & (s & Htr) & _)].
      * right. split; [exact Htr | congruence].
      * left. split; [congruence | exact He].
    + destruct Hinv as (Hnt & _). congruence.
  - intros st n iv env Hn Hc. unfold fire. now rewrite Hn, Hc.
Qed.

(** A completed record is the same after one more timer event. *)
Lemma terminal_fields_settled_witness :
  run 5000 [mkTickEnv 9000 9001 (1 # 2)]
    (run 5000 [mkTickEnv 2000 2001 (1 # 2); mkTickEnv 6000 6001 (1 # 2)]
       (mkTask (sample_record 5000 false) false))
  = run 5000 [mkTickEnv 2000 2001 (1 # 2); mkTickEnv 6000 6001 (1 # 2)]
      (mkTask (sample_record 5000 false) false).
Proof.
  destruct (terminal_fields_settled "u1" sample_audio ∅ 1000 5000 false 5000
              [mkTickEnv 2000 2001 (1 # 2); mkTickEnv 6000 6001 (1 # 2)])
    as (_ & H & _).
  exact (proj2 (H eq_refl) [mkTickEnv 9000 9001 (1 # 2)]).
Defined.

(** ** Progress values *)

Lemma Qle_bool_inject (a b : Z) : Qle_bool (inject_Z a) (inject_Z b) = (a <=? b).
Proof.
  destruct (a <=? b) eqn:E.
  - apply Qle_bool_iff. rewrite <- Zle_Qle. lia.
  - destruct (Qle_bool (inject_Z a) (inject_Z b)) eqn:E'; [|reflexivity].
    apply Qle_bool_iff in E'. rewrite <- Zle_Qle in E'. lia.
Qed.

Lemma compute_progress_percent (T : Q) (now : Z) (r : upload) :
  0 <= now - createdAt r ->
  ((0 < T)%Q \/ 0 < now - createdAt r) ->
  compute_progress T now r = Fin (inject_Z (percent_at T (now - createdAt r))).
Proof.
  intros He Hnz. unfold compute_progress, percent_at, num_div.
  set (e := now - createdAt r) in *.
  destruct (Qeq_bool T 0) eqn:ET.
  - apply Qeq_bool_iff in ET.
    assert (0 < e) as Hpos.
    { destruct Hnz as [HT|]; [|assumption]. rewrite ET in HT.
      exfalso. exact (Qlt_irrefl _ HT). }
    assert (Qlt_bool 0 (inject_Z e) = true) as ->.
    { apply Qlt_bool_iff. change 0%Q with (inject_Z 0). rewrite <- Zlt_Qlt. lia. }
    reflexivity.
  - cbn [num_mul Math_round Math_min].
    change (Qle_bool 100) with (Qle_bool (inject_Z 100)). rewrite Qle_bool_inject.
    destruct (100 <=? _) eqn:E.
    + rewrite Z.min_l by lia. reflexivity.
    + rewrite Z.min_r by lia. reflexivity.
Qed.

Lemma percent_at_bounds (T : Q) (e : Z) :
  (0 <= T)%Q -> 0 <= e -> 0 <= percent_at T e <= 100.
Proof.
  intros HT He. unfold percent_at. destruct (Qeq_bool T 0); [lia|].
  split; [|lia]. apply Z.min_glb; [lia|].
  change 0 with (Qfloor 0). apply Qfloor_resp_le.
  assert (0 <= inject_Z e / T * 100)%Q; [|lra].
  apply Qmult_le_0_compat; [|discriminate].
  apply Qmult_le_0_compat; [|now apply Qinv_le_0_compat].
  change 0%Q with (inject_Z 0). rewrite <- Zle_Qle. lia.
Qed.

Lemma percent_at_mono (T : Q) (e1 e2 : Z) :
  (0 <= T)%Q -> e1 <= e2 -> percent_at T e1 <= percent_at T e2.
Proof.
  intros HT He. unfold percent_at. destruct (Qeq_bool T 0); [lia|].
  apply Z.min_le_compat_l. apply Qfloor_resp_le.
  apply Qplus_le_compat; [|apply Qle_refl].
  apply Qmult_le_compat_r; [|discriminate].
  apply Qmult_le_compat_r; [|now apply Qinv_le_0_compat].
  rewrite <- Zle_Qle. lia.
Qed.

Lemma promote_createdAt (p : number) (r : upload) :
  createdAt (promote p r) = createdAt r.
Proof.
  unfold promote. now destruct (Status_eqb (status r) queued && num_gtb p 5).
Qed.

Lemma Math_min_geb (k : Q) (x : number) :
  num_geb (Math_min k x) k = true -> Math_min k x = Fin k.
Proof.
  destruct x as [q| | |]; simpl; try discriminate; [|reflexivity].
  destruct (Qle_bool k q) eqn:E; [reflexivity|]. simpl. congruence.
Qed.

(** What a running task stores is the value of the formula. *)
Lemma step_writes_formula (T : Q) (t : task) (env : tick_env) :
  t_cleared t = false ->
  progress (t_record (step T t env))
  = compute_progress T (now_elapsed env) (t_record t)
  /\ createdAt (t_record (step T t env)) = createdAt (t_record t).
Proof.
  intros Hc. unfold step. rewrite Hc. unfold tick.
  destruct (num_geb _ 100) eqn:Hge; simpl.
  - unfold finish. destruct (willFail _); simpl; rewrite ?promote_createdAt;
      split; try reflexivity.
    symmetry. unfold compute_progress in *. now apply Math_min_geb.
  - now rewrite promote_createdAt.
Qed.

Lemma history_percent (T : Q) (now0 : Z) :
  (0 <= T)%Q ->
  forall envs t last z,
    createdAt (t_record t) = now0 ->
    progress (t_record t) = Fin (inject_Z z) ->
    0 <= z <= 100 ->
    (t_cleared t = false -> z <= percent_at T (last - now0)) ->
    now0 <= last ->
    clock_ok last envs ->
    ((0 < T)%Q \/ Forall (fun env => now0 < now_elapsed env) envs) ->
    exists zs,
      map progress (history T envs t) = map (fun z => Fin (inject_Z z)) zs
      /\ Forall (fun z => 0 <= z <= 100) zs
      /\ Sorted Z.le (z :: zs).
Proof.
  intros HT. induction envs as [|env envs IH];
    intros t last z Hcr Hp Hz Hle Hlast Hclk Hnz.
  - exists []. simpl. repeat split; constructor; constructor.
  - destruct Hclk as (Hstep & Hclk). simpl.
    assert (Hnz' : (0 < T)%Q \/ Forall (fun env => now0 < now_elapsed env) envs).
    { destruct Hnz as [?|HF]; [now left|right]. now inversion HF. }
    destruct (t_cleared t) eqn:Hc.
    + rewrite step_cleared by assumption.
      destruct (IH t (now_elapsed env) z Hcr Hp Hz) as (zs & Hm & Hb & Hs);
        try assumption; [intros; congruence | lia |].
      exists (z :: zs). simpl. rewrite Hp, Hm. split; [reflexivity|].
      split; [now constructor|]. constructor; [exact Hs|]. constructor. lia.
    + destruct (step_writes_formula T t env Hc) as (Hw & Hcr').
      rewrite compute_progress_percent in Hw.
      2:{ rewrite Hcr. lia. }
      2:{ rewrite Hcr. destruct Hnz as [?|HF]; [now left|right].
          inversion HF; subst. lia. }
      rewrite Hcr in Hw, Hcr'.
      set (z' := percent_at T (now_elapsed env - now0)) in *.
      assert (Hz' : 0 <= z' <= 100) by (apply percent_at_bounds; [assumption|lia]).
      assert (Hzz' : z <= z').
      { etransitivity; [apply Hle; reflexivity|].
        apply percent_at_mono; [assumption|lia]. }
      destruct (IH (step T t env) (now_elapsed env) z' Hcr' Hw Hz')
        as (zs & Hm & Hb & Hs); try assumption; [intros; subst z'; lia | lia |].
      exists (z' :: zs). simpl. rewrite Hw, Hm. split; [reflexivity|].
      split; [now constructor|]. constructor; [exact Hs|]. now constructor.
Qed.

(** C2. When the clock never goes back from the time of creation and the
    quotient of the formula is a number (a positive total duration, or a
    tick later than creation), the progress stored in a created record is at
    every tick an integer between 0 and 100, it never decreases from one tick
    to a later one, and a running task stores exactly
    [min(100, round(elapsed / totalTime * 100))]. *)
Theorem progress_bounded_and_monotone :
  forall uploadId audioFile md now pt wf T envs,
    (0 <= T)%Q ->
    clock_ok now envs ->
    ((0 < T)%Q \/ Forall (fun env => now < now_elapsed env) envs) ->
    (exists zs,
        map progress
          (uploadRecord uploadId audioFile md now pt wf
           :: history T envs (mkTask (uploadRecord uploadId audioFile md now pt wf) false))
        = map (fun z => Fin (inject_Z z)) zs
        /\ Forall (fun z => 0 <= z <= 100) zs
        /\ StronglySorted Z.le zs)
    /\ (forall t env,
           t_cleared t = false ->
           progress (t_record (step T t env))
           = compute_progress T (now_elapsed env) (t_record t)).
Proof.
  intros uploadId audioFile md now0 pt wf T envs HT Hclk Hnz. split.
  - destruct (history_percent T now0 HT envs
                (mkTask (uploadRecord uploadId audioFile md now0 pt wf) false)
                now0 0) as (zs & Hm & Hb & Hs); try assumption; try reflexivity;
      try lia.
    { intros _. apply percent_at_bounds; [assumption|lia]. }
    exists (0 :: zs). simpl. rewrite Hm. split; [reflexivity|].
    split; [constructor; [lia|assumption]|].
    apply Sorted_StronglySorted; [|exact Hs].
    intros a b c. apply Z.le_trans.
  - intros t env Hc. now apply step_writes_formula.
Qed.

(** Four ticks of a 5 s upload, the last one after completion. *)
Lemma progress_bounded_and_monotone_witness :
  exists zs,
    map progress
      (sample_record 5000 false
       :: history 5000 [mkTickEnv 2000 2001 (1 # 2); mkTickEnv 3000 3001 (1 # 2);
                        mkTickEnv 6000 6001 (1 # 2); mkTickEnv 7000 7001 (1 # 2)]
            (mkTask (sample_record 5000 false) false))
    = map (fun z => Fin (inject_Z z)) zs
    /\ Forall (fun z => 0 <= z <= 100) zs
    /\ StronglySorted Z.le zs.
Proof.
  refine (proj1 (progress_bounded_and_monotone "u1" sample_audio ∅ 1000 5000%Q false
                   5000%Q
                   [mkTickEnv 2000 2001 (1 # 2); mkTickEnv 3000 3001 (1 # 2);
                    mkTickEnv 6000 6001 (1 # 2); mkTickEnv 7000 7001 (1 # 2)]
                   _ _ _)).
  - discriminate.
  - simpl. lia.
  - left. reflexivity.
Defined.

(** ** Acceptance of an upload *)

Lemma error_codes (i : Z) (e : Z * string) :
  array_get errors i = Some e -> fst e = 500 \/ fst e = 503.
Proof.
  unfold array_get. destruct (i <? 0); [discriminate|].
  destruct (Z.to_nat i) as [|[|[|n]]]; simpl; intros [= <-]; simpl; auto.
Qed.

(** A reply 202 comes from the acceptance path and from nowhere else. *)
Lemma post_accepted_inv cfg JSON_parse env req st :
  reply_code (out_reply (post_uploads cfg JSON_parse env req st)) = Some 202 ->
  exists audioFile,
    audio_of req = Some audioFile
    /\ supported (mimetype audioFile) = true
    /\ Qlt_bool (rnd_timeout env) (timeoutRate cfg) = false
    /\ Qlt_bool (rnd_failure env) (uploadFailureRate cfg) = false
    /\ out_reply (post_uploads cfg JSON_parse env req st)
       = fst (accept cfg JSON_parse env req audioFile st)
    /\ out_engine (post_uploads cfg JSON_parse env req st)
       = snd (accept cfg JSON_parse env req audioFile st).
Proof.
  unfold post_uploads.
  destruct (Qlt_bool (rnd_timeout env) (timeoutRate cfg)); [discriminate|].
  destruct (Qlt_bool (rnd_failure env) (uploadFailureRate cfg)).
  - destruct (array_get errors _) as [e|] eqn:E; simpl; [|discriminate].
    intros [= H]. destruct (error_codes _ _ E); lia.
  - destruct (audio_of req) as [audioFile|]; [|discriminate].
    destruct (supported (mimetype audioFile)) eqn:Hs; simpl; [|discriminate].
    intros _. exists audioFile. auto 10.
Qed.

(** The engine after the acceptance path: the record is stored under its id
    and one more interval runs, whose total time is the drawn processing
    time. *)
Lemma accept_engine cfg JSON_parse env req audioFile st :
  let record :=
    uploadRecord (uuid env) audioFile (build_metadata JSON_parse req) (now env)
      (minProcessingTime cfg
       + rnd_time env * (maxProcessingTime cfg - minProcessingTime cfg))%Q
      (Qlt_bool (rnd_willFail env) (processingFailureRate cfg)) in
  snd (accept cfg JSON_parse env req audioFile st)
  = mkEngine (Map_set (uuid env) record (uploads st))
      (intervals st
       ++ [mkInterval (uuid env)
             (completesAt record - inject_Z (createdAt record))%Q false]).
Proof.
  intros record. unfold accept, simulateProcessing. simpl.
  unfold Map_get, Map_set. now rewrite alist_get_set_same.
Qed.

Lemma nth_error_snoc {A : Type} (l : list A) (x : A) :
  nth_error (l ++ [x]) (length l) = Some x.
Proof. induction l as [|y l IH]; simpl; [reflexivity | exact IH]. Qed.

(** C4. With [minProcessingTime] and [maxProcessingTime] both 0 an accepted
    upload is stored [queued] with a total time of 0; the first tick, which
    fires later than the creation, stores progress 100, puts the record in a
    terminal state and clears the interval, and the record is not in
    [processing] before, at or after that tick. *)
Theorem zero_duration_first_tick_terminal :
  forall cfg JSON_parse env req st te envs,
    (minProcessingTime cfg == 0)%Q ->
    (maxProcessingTime cfg == 0)%Q ->
    reply_code (out_reply (post_uploads cfg JSON_parse env req st)) = Some 202 ->
    now env < now_elapsed te ->
    let st1 := out_engine (post_uploads cfg JSON_parse env req st) in
    let n := length (intervals st) in
    let st2 := fire n te st1 in
    exists r1 r2 T,
      Map_get (uuid env) (uploads st1) = Some r1
      /\ status r1 = queued
      /\ nth_error (intervals st1) n = Some (mkInterval (uuid env) T false)
      /\ (T == 0)%Q
      /\ Map_get (uuid env) (uploads st2) = Some r2
      /\ progress r2 = Fin 100
      /\ terminal (status r2) = true
      /\ nth_error (intervals st2) n = Some (mkInterval (uuid env) T true)
      /\ Forall (fun r => status r <> processing)
           (r1 :: history T (te :: envs) (mkTask r1 false)).
Proof.
  intros cfg JSON_parse env req st te envs Hmin Hmax H202 Hlater st1 n st2.
  destruct (post_accepted_inv _ _ _ _ _ H202)
    as (audioFile & _ & _ & _ & _ & _ & Hst1).
  pose proof (accept_engine cfg JSON_parse env req audioFile st) as Hacc.
  cbv zeta in Hacc. rewrite <- Hst1 in Hacc. fold st1 in Hacc.
  set (r1 := uploadRecord _ _ _ _ _ _) in Hacc.
  set (T := (completesAt r1 - inject_Z (createdAt r1))%Q) in Hacc.
  assert (HT : (T == 0)%Q).
  { subst T r1. simpl. rewrite Hmin, Hmax. ring. }
  assert (Hg1 : Map_get (uuid env) (uploads st1) = Some r1).
  { rewrite Hacc. simpl. apply alist_get_set_same. }
  assert (Hn1 : nth_error (intervals st1) n = Some (mkInterval (uuid env) T false)).
  { rewrite Hacc. simpl. apply nth_error_snoc. }
  assert (Hp : compute_progress T (now_elapsed te) r1 = Fin 100).
  { rewrite compute_progress_percent.
    - unfold percent_at. apply Qeq_bool_iff in HT. now rewrite HT.
    - subst r1. simpl. lia.
    - right. subst r1. simpl. lia. }
  destruct (fire_runs_step n te st1 _ r1 Hn1 Hg1) as (Hg2 & Hn2).
  cbn [iv_uploadId iv_totalTime iv_cleared] in Hg2, Hn2. fold st2 in Hg2, Hn2.
  assert (Hstep : step T (mkTask r1 false) te
                  = mkTask (finish te (set_progress (Fin 100) (promote (Fin 100) r1)))
                      true).
  { unfold step. cbn [t_cleared t_record]. unfold tick. rewrite Hp. reflexivity. }
  rewrite Hstep in Hg2, Hn2. cbn [t_record t_cleared] in Hg2, Hn2.
  exists r1, (finish te (set_progress (Fin 100) (promote (Fin 100) r1))), T.
  repeat split; try assumption.
  - unfold finish. now destruct (willFail _).
  - apply finish_terminal.
  - apply never_processing_after_full_first_tick; [discriminate|].
    now rewrite Hp.
Qed.

(** An upload accepted by the empty engine with both processing times 0. *)
Lemma zero_duration_first_tick_terminal_witness :
  exists r1 r2 T,
    Map_get "u1"
      (uploads
         (out_engine
            (post_uploads (mkConfig (15 # 100) (1 # 10) (1 # 10) 0 0) sample_parse
               (mkPostEnv (1 # 2) (1 # 2) (1 # 2) (1 # 2) (1 # 2) "u1" 1000 (1 # 2) (1 # 2))
               (mkRequest (Some (mkFiles (Some [sample_audio]) None)) ∅)
               initial))) = Some r1
    /\ status r1 = queued
    /\ nth_error
         (intervals
            (out_engine
               (post_uploads (mkConfig (15 # 100) (1 # 10) (1 # 10) 0 0) sample_parse
                  (mkPostEnv (1 # 2) (1 # 2) (1 # 2) (1 # 2) (1 # 2) "u1" 1000 (1 # 2) (1 # 2))
                  (mkRequest (Some (mkFiles (Some [sample_audio]) None)) ∅)
                  initial))) 0
       = Some (mkInterval "u1" T false)
    /\ (T == 0)%Q
    /\ Map_get "u1"
         (uploads
            (fire 0 (mkTickEnv 2000 2001 (1 # 2))
               (out_engine
                  (post_uploads (mkConfig (15 # 100) (1 # 10) (1 # 10) 0 0) sample_parse
                     (mkPostEnv (1 # 2) (1 # 2) (1 # 2) (1 # 2) (1 # 2) "u1" 1000 (1 # 2) (1 # 2))
                     (mkRequest (Some (mkFiles (Some [sample_audio]) None)) ∅)
                     initial)))) = Some r2
    /\ progress r2 = Fin 100
    /\ terminal (status r2) = true.
Proof.
  destruct (zero_duration_first_tick_terminal
              (mkConfig (15 # 100) (1 # 10) (1 # 10) 0 0) sample_parse
              (mkPostEnv (1 # 2) (1 # 2) (1 # 2) (1 # 2) (1 # 2) "u1" 1000 (1 # 2) (1 # 2))
              (mkRequest (Some (mkFiles (Some [sample_audio]) None)) ∅)
              initial (mkTickEnv 2000 2001 (1 # 2)) []
              ltac:(reflexivity) ltac:(reflexivity) ltac:(reflexivity) ltac:(reflexivity))
    as (r1 & r2 & T & H1 & H2 & H3 & H4 & H5 & H6 & H7 & _).
  exists r1, r2, T. auto 10.
Defined.

(** ** The boundary: simulated timeouts and failures *)

Lemma error_pick_in_range (u : Q) :
  unit_interval u ->
  exists e, array_get errors (Qfloor (u * inject_Z (Z.of_nat (length errors)))) = Some e.
Proof.
  intros (H0 & H1). simpl length. change (inject_Z (Z.of_nat 2)) with 2%Q.
  assert (Hlo : 0 <= Qfloor (u * 2)).
  { change 0 with (Qfloor 0). apply Qfloor_resp_le. lra. }
  assert (Hhi : Qfloor (u * 2) < 2).
  { rewrite Zlt_Qlt. eapply Qle_lt_trans; [apply Qfloor_le|].
    change (inject_Z 2) with 2%Q. lra. }
  unfold array_get. destruct (Qfloor (u * 2) <? 0) eqn:E; [lia|].
  destruct (Z.to_nat (Qfloor (u * 2))) as [|[|n]] eqn:En; simpl; eauto; lia.
Qed.

(** C6. A request that takes the simulated-timeout branch of [POST /uploads]
    or of the status query, or the simulated-failure branch of
    [POST /uploads], leaves the engine as it was, and its reply is the same
    whatever the engine and the request hold. *)
Theorem simulated_errors_leave_engine_untouched :
  forall cfg JSON_parse,
    (forall env req st,
        Qlt_bool (rnd_timeout env) (timeoutRate cfg) = true ->
        post_uploads cfg JSON_parse env req st
        = mkOutcome (Send 504 (error_body "Gateway timeout")) 35000 st)
    /\ (forall env req st,
           Qlt_bool (rnd_timeout env) (timeoutRate cfg) = false ->
           Qlt_bool (rnd_failure env) (uploadFailureRate cfg) = true ->
           out_engine (post_uploads cfg JSON_parse env req st) = st
           /\ (forall req' st',
                  out_reply (post_uploads cfg JSON_parse env req' st')
                  = out_reply (post_uploads cfg JSON_parse env req st))
           /\ (unit_interval (rnd_error env) ->
               exists e, In e errors
                         /\ out_reply (post_uploads cfg JSON_parse env req st)
                            = Send (fst e) (error_body (snd e))))
    /\ (forall env uploadId st,
           Qlt_bool (g_rnd_timeout env) (timeoutRate cfg) = true ->
           get_status cfg env uploadId st
           = mkOutcome (Send 504 (error_body "Gateway timeout")) 35000 st).
Proof.
  intros cfg JSON_parse. split; [|split].
  - intros env req st H. unfold post_uploads. now rewrite H.
  - intros env req st Ht Hf. unfold post_uploads. rewrite Ht, Hf.
    split; [|split].
    + now destruct (array_get errors _).
    + intros req' st'. now destruct (array_get errors _).
    + intros Hu. destruct (error_pick_in_range _ Hu) as (e & He).
      rewrite He. exists e. split; [|reflexivity].
      unfold array_get in He. destruct (_ <? 0); [discriminate|].
      eapply nth_error_In; eassumption.
  - intros env uploadId st H. unfold get_status. now rewrite H.
Qed.

(** The three simulated branches on the empty engine. *)
Lemma simulated_errors_leave_engine_untouched_witness :
  out_engine
    (post_uploads CONFIG sample_parse
       (mkPostEnv (1 # 20) (1 # 2) (1 # 2) (1 # 2) (1 # 2) "u1" 1000 (1 # 2) (1 # 2))
       (mkRequest (Some (mkFiles (Some [sample_audio]) None)) ∅) initial)
  = initial
  /\ out_engine
       (post_uploads CONFIG sample_parse
          (mkPostEnv (1 # 2) (1 # 20) (3 # 4) (1 # 2) (1 # 2) "u1" 1000 (1 # 2) (1 # 2))
          (mkRequest (Some (mkFiles (Some [sample_audio]) None)) ∅) initial)
     = initial
  /\ out_engine (get_status CONFIG (mkGetEnv (1 # 20) (1 # 2) (1 # 2)) "u1" initial)
     = initial.
Proof.
  destruct (simulated_errors_leave_engine_untouched CONFIG sample_parse)
    as (Hp & Hf & Hg).
  split; [|split].
  - rewrite Hp; reflexivity.
  - apply Hf; reflexivity.
  - rewrite Hg; reflexivity.
Defined.

(** With the timeout and failure branches not taken and the slow-down branch
    taken, a request without files is still answered 400, two seconds late. *)
Lemma simulated_errors_before_validation_counterexample :
  bad_request (mkRequest None ∅)
  /\ Qlt_bool (1 # 10) (2 # 10) = true
  /\ out_reply
       (post_uploads CONFIG sample_parse
          (mkPostEnv (1 # 2) (1 # 2) (1 # 2) (1 # 10) (1 # 2) "u1" 1000 (1 # 2) (1 # 2))
          (mkRequest None ∅) initial)
     = Send 400 (error_body "No audio file uploaded")
  /\ (out_stall
        (post_uploads CONFIG sample_parse
           (mkPostEnv (1 # 2) (1 # 2) (1 # 2) (1 # 10) (1 # 2) "u1" 1000 (1 # 2) (1 # 2))
           (mkRequest None ∅) initial) == 2000)%Q.
Proof. repeat split. Qed.

(** C10, amended. On [POST /uploads] the timeout and failure draws are tested
    before validation: a request that validation rejects is answered 504 when
    the timeout branch is taken, 500 or 503 when the failure branch is taken,
    and 400 exactly when neither is taken; the slow-down branch only delays
    the 400. *)
Theorem simulated_errors_before_validation :
  forall cfg JSON_parse env req st,
    bad_request req ->
    unit_interval (rnd_error env) ->
    let code := reply_code (out_reply (post_uploads cfg JSON_parse env req st)) in
    (code = Some 400 <->
     Qlt_bool (rnd_timeout env) (timeoutRate cfg) = false
     /\ Qlt_bool (rnd_failure env) (uploadFailureRate cfg) = false)
    /\ (Qlt_bool (rnd_timeout env) (timeoutRate cfg) = true -> code = Some 504)
    /\ (Qlt_bool (rnd_timeout env) (timeoutRate cfg) = false ->
        Qlt_bool (rnd_failure env) (uploadFailureRate cfg) = true ->
        code = Some 500 \/ code = Some 503)
    /\ out_engine (post_uploads cfg JSON_parse env req st) = st.
Proof.
  intros cfg JSON_parse env req st Hbad Hu code. subst code.
  unfold post_uploads.
  destruct (Qlt_bool (rnd_timeout env) (timeoutRate cfg)).
  { simpl. repeat split; try discriminate; intros; try easy. }
  destruct (Qlt_bool (rnd_failure env) (uploadFailureRate cfg)).
  { destruct (error_pick_in_range _ Hu) as (e & He). rewrite He. simpl.
    pose proof (error_codes _ _ He) as Hc.
    repeat split; try discriminate; intros; try easy.
    - destruct Hc; congruence.
    - destruct Hc as [-> | ->]; auto. }
  unfold bad_request in Hbad.
  destruct (audio_of req) as [audioFile|].
  - rewrite Hbad. simpl. repeat split; try discriminate; intros; easy.
  - simpl. repeat split; try discriminate; intros; easy.
Qed.

(** A request without files is answered 504, or 500 or 503, when a simulated branch is taken. *)
Lemma simulated_errors_before_validation_witness :
  reply_code
    (out_reply
       (post_uploads CONFIG sample_parse
          (mkPostEnv (1 # 20) (1 # 2) (1 # 2) (1 # 2) (1 # 2) "u1" 1000 (1 # 2) (1 # 2))
          (mkRequest None ∅) initial)) = Some 504
  /\ (reply_code
        (out_reply
           (post_uploads CONFIG sample_parse
              (mkPostEnv (1 # 2) (1 # 20) (3 # 4) (1 # 2) (1 # 2) "u1" 1000 (1 # 2) (1 # 2))
              (mkRequest None ∅) initial)) = Some 500
      \/ reply_code
           (out_reply
              (post_uploads CONFIG sample_parse
                 (mkPostEnv (1 # 2) (1 # 20) (3 # 4) (1 # 2) (1 # 2) "u1" 1000 (1 # 2) (1 # 2))
                 (mkRequest None ∅) initial)) = Some 503).
Proof.
  split.
  - refine (proj1 (proj2 (simulated_errors_before_validation CONFIG sample_parse
             (mkPostEnv (1 # 20) (1 # 2) (1 # 2) (1 # 2) (1 # 2) "u1" 1000 (1 # 2) (1 # 2))
             (mkRequest None ∅) initial I _)) eq_refl).
    split; [discriminate | reflexivity].
  - refine (proj1 (proj2 (proj2 (simulated_errors_before_validation CONFIG sample_parse
             (mkPostEnv (1 # 2) (1 # 20) (3 # 4) (1 # 2) (1 # 2) "u1" 1000 (1 # 2) (1 # 2))
             (mkRequest None ∅) initial I _))) eq_refl eq_refl).
    split; [discriminate | reflexivity].
Defined.

(** ** The status query *)

Lemma promote_cases (p : number) (r : upload) :
  promote p r = r \/ promote p r = set_status processing r.
Proof.
  unfold promote. destruct (Status_eqb (status r) queued && num_gtb p 5); auto.
Qed.

Lemma tick_dates_valid (T : Q) (env : tick_env) (r : upload) :
  dates_valid r -> valid_time (now_completed env) ->
  dates_valid (fst (tick T env r)).
Proof.
  intros (Hc & Hd) Hnow. unfold tick.
  set (p := compute_progress T (now_elapsed env) r).
  destruct (num_geb p 100); simpl.
  - unfold finish.
    destruct (promote_cases p r) as [-> | ->];
      destruct (willFail _); split; simpl; try assumption; try discriminate;
      intros _; eauto.
  - destruct (promote_cases p r) as [-> | ->]; split; simpl; try assumption;
      try discriminate.
Qed.

Lemma Forall_alist_set {A : Type} (P : string * A -> Prop) (k : string) (v : A)
    (m : list (string * A)) :
  Forall P m -> P (k, v) -> Forall P (alist_set k v m).
Proof.
  intros Hm Hv. induction Hm as [|[k' v'] m Hx Hm IH]; simpl.
  - constructor; [exact Hv | constructor].
  - destruct (String.eqb k k') eqn:E.
    + apply String.eqb_eq in E. subst k'. constructor; assumption.
    + constructor; assumption.
Qed.

Lemma alist_get_Forall {A : Type} (P : A -> Prop) (k : string) (v : A)
    (m : list (string * A)) :
  alist_get k m = Some v -> Forall (fun kv => P (snd kv)) m -> P v.
Proof.
  intros Hg Hm. induction Hm as [|[k' v'] m Hx Hm IH]; simpl in *; [discriminate|].
  destruct (String.eqb k k'); [|now apply IH].
  injection Hg as <-. exact Hx.
Qed.

Lemma fire_engine_ok (n : nat) (env : tick_env) (st : engine) :
  engine_ok st -> valid_time (now_completed env) -> engine_ok (fire n env st).
Proof.
  intros Hok Hnow. unfold fire.
  destruct (nth_error (intervals st) n) as [iv|]; [|exact Hok].
  destruct (iv_cleared iv); [exact Hok|].
  unfold interval_callback.
  destruct (Map_get (iv_uploadId iv) (uploads st)) as [r|] eqn:Hg; [|exact Hok].
  pose proof (tick_dates_valid (iv_totalTime iv) env r) as Ht.
  destruct (tick (iv_totalTime iv) env r) as [r' c]. unfold engine_ok. simpl.
  apply Forall_alist_set; [exact Hok|]. simpl. apply Ht; [|exact Hnow].
  exact (alist_get_Forall dates_valid _ _ _ Hg Hok).
Qed.

Lemma post_engine_ok cfg JSON_parse env req st :
  engine_ok st -> valid_time (now env) ->
  engine_ok (out_engine (post_uploads cfg JSON_parse env req st)).
Proof.
  intros Hok Hnow. unfold post_uploads.
  destruct (Qlt_bool (rnd_timeout env) (timeoutRate cfg)); [exact Hok|].
  destruct (Qlt_bool (rnd_failure env) (uploadFailureRate cfg)).
  { now destruct (array_get errors _). }
  destruct (audio_of req) as [audioFile|]; [|exact Hok].
  destruct (negb (supported (mimetype audioFile))); [exact Hok|].
  pose proof (accept_engine cfg JSON_parse env req audioFile st) as Hacc.
  destruct (accept cfg JSON_parse env req audioFile st) as [r st']. simpl in *.
  subst st'. unfold engine_ok. simpl.
  apply Forall_alist_set; [exact Hok|]. split; simpl; [exact Hnow | discriminate].
Qed.

Lemma handle_engine_ok cfg JSON_parse st ev :
  engine_ok st -> valid_event ev -> engine_ok (handle cfg JSON_parse st ev).
Proof.
  intros Hok Hev. destruct ev as [env req|env uploadId| |n env]; simpl in *.
  - now apply post_engine_ok.
  - unfold get_status. now destruct (Qlt_bool _ _).
  - unfold list_uploads. now destruct (map_summary _).
  - now apply fire_engine_ok.
Qed.

Lemma run_events_engine_ok cfg JSON_parse evs st :
  engine_ok st -> Forall valid_event evs ->
  engine_ok (run_events cfg JSON_parse evs st).
Proof.
  intros Hok Hevs. revert st Hok.
  induction Hevs as [|ev evs Hev Hevs IH]; intros st Hok; [exact Hok|].
  unfold run_events in *. simpl. apply IH. now apply handle_engine_ok.
Qed.

Lemma toISOString_valid (z : Z) : valid_time z -> toISOString (Some z) = Some (JIso z).
Proof.
  intros (Hlo & Hhi). unfold toISOString.
  destruct (- max_time <=? z) eqn:E1; [|lia].
  destruct (z <=? max_time) eqn:E2; [reflexivity|lia].
Qed.

Lemma status_response_defined (r : upload) :
  dates_valid r -> exists response, status_response r = Some response.
Proof.
  intros (Hc & Hd). unfold status_response.
  rewrite (toISOString_valid _ Hc).
  destruct (status r) eqn:Hs; simpl; eauto.
  destruct (Hd eq_refl) as (t & -> & Ht). rewrite (toISOString_valid _ Ht). eauto.
Qed.

(** C7. In every state the server reaches (the clock showing valid dates)
    the lookup of the status query answers an unknown id with 404 and the body
    [{error: 'Upload not found'}], answers a known id with 200 and its
    response object, and raises no exception, so that the 404 is the only
    failure it produces; a status query that does not take the
    simulated-timeout branch replies what the lookup gives and leaves the
    engine as it was. *)
Theorem status_of_unknown_id_is_not_found :
  forall cfg JSON_parse evs uploadId,
    Forall valid_event evs ->
    let st := run_events cfg JSON_parse evs initial in
    (Map_get uploadId (uploads st) = None ->
     lookup_status uploadId st = Send 404 (error_body "Upload not found"))
    /\ (forall r, Map_get uploadId (uploads st) = Some r ->
                  exists response,
                    status_response r = Some response
                    /\ lookup_status uploadId st = Send 200 (JObj response))
    /\ (lookup_status uploadId st = Send 404 (error_body "Upload not found")
        \/ exists response, lookup_status uploadId st = Send 200 (JObj response))
    /\ (forall env,
           Qlt_bool (g_rnd_timeout env) (timeoutRate cfg) = false ->
           out_reply (get_status cfg env uploadId st) = lookup_status uploadId st
           /\ out_engine (get_status cfg env uploadId st) = st).
Proof.
  intros cfg JSON_parse evs uploadId Hevs st.
  assert (Hok : engine_ok st).
  { apply run_events_engine_ok; [constructor | exact Hevs]. }
  assert (Hget : forall env,
             Qlt_bool (g_rnd_timeout env) (timeoutRate cfg) = false ->
             out_reply (get_status cfg env uploadId st) = lookup_status uploadId st
             /\ out_engine (get_status cfg env uploadId st) = st).
  { intros env Ht. unfold get_status. now rewrite Ht. }
  unfold lookup_status in *.
  destruct (Map_get uploadId (uploads st)) as [r|] eqn:Hg.
  - destruct (status_response_defined r) as (response & Hresp).
    { exact (alist_get_Forall dates_valid _ _ _ Hg Hok). }
    rewrite Hresp in *. repeat split; try discriminate; eauto; try apply Hget; auto.
    intros r' [= <-]. eauto.
  - repeat split; try discriminate; auto; apply Hget; auto.
Qed.

(** After one upload and one tick, an id that was never issued. *)
Lemma status_of_unknown_id_is_not_found_witness :
  out_reply
    (get_status CONFIG (mkGetEnv (1 # 2) (1 # 2) (1 # 2)) "nobody"
       (run_events CONFIG sample_parse
          [EvPost (mkPostEnv (1 # 2) (1 # 2) (1 # 2) (1 # 2) (1 # 2) "u1" 1000 (1 # 2) (1 # 2))
             (mkRequest (Some (mkFiles (Some [sample_audio]) None)) ∅);
           EvFire 0 (mkTickEnv 2000 2001 (1 # 2))]
          initial))
  = Send 404 (error_body "Upload not found").
Proof.
  assert (Hevs : Forall valid_event
            [EvPost (mkPostEnv (1 # 2) (1 # 2) (1 # 2) (1 # 2) (1 # 2) "u1" 1000 (1 # 2) (1 # 2))
               (mkRequest (Some (mkFiles (Some [sample_audio]) None)) ∅);
             EvFire 0 (mkTickEnv 2000 2001 (1 # 2))]).
  { repeat constructor; unfold valid_time, max_time; simpl; lia. }
  destruct (status_of_unknown_id_is_not_found CONFIG sample_parse _ "nobody" Hevs)
    as (Hnone & _ & _ & Hget).
  destruct (Hget (mkGetEnv (1 # 2) (1 # 2) (1 # 2)) eq_refl) as (-> & _).
  exact (Hnone eq_refl).
Defined.

(** ** Metadata of an accepted upload *)

Lemma body_over_defaults (body : object) :
  obj_spread
    {[ "language" := get_or body "language" (JStr "en");
       "speakerCount" := get_or body "speakerCount" (JNum (Fin 1)) ]}
    body
  = body ∪ default_metadata.
Proof.
  unfold obj_spread, default_metadata. apply map_eq. intros k.
  destruct (body !! k) as [v|] eqn:E.
  - rewrite !lookup_union_l' by (rewrite E; eauto). reflexivity.
  - rewrite !lookup_union_r by assumption.
    destruct (decide (k = "language")) as [->|Hl].
    + rewrite !lookup_insert_eq. unfold get_or. now rewrite E.
    + rewrite !lookup_insert_ne by congruence.
      destruct (decide (k = "speakerCount")) as [->|Hs].
      * rewrite !lookup_singleton_eq. unfold get_or. now rewrite E.
      * rewrite !lookup_singleton_ne by congruence. reflexivity.
Qed.

Lemma build_metadata_merge JSON_parse (req : request) :
  build_metadata JSON_parse req
  = config_props JSON_parse req ∪ (req_body req ∪ default_metadata).
Proof.
  unfold build_metadata, config_props. rewrite body_over_defaults.
  destruct (config_file req) as [cf|].
  - destruct (JSON_parse (buffer cf)); [reflexivity|].
    now rewrite (left_id_L ∅ (∪)).
  - now rewrite (left_id_L ∅ (∪)).
Qed.

Lemma audio_of_without_config (req : request) :
  audio_of (without_config req) = audio_of req.
Proof. unfold audio_of, without_config. simpl. now destruct (req_files req). Qed.

Lemma config_file_without_config (req : request) :
  config_file (without_config req) = None.
Proof. unfold config_file, without_config. simpl. now destruct (req_files req). Qed.

Lemma post_without_unparsed_config cfg JSON_parse env req st cf :
  config_file req = Some cf -> JSON_parse (buffer cf) = None ->
  post_uploads cfg JSON_parse env req st
  = post_uploads cfg JSON_parse env (without_config req) st.
Proof.
  intros Hcf Hparse.
  assert (Hmd : build_metadata JSON_parse (without_config req)
                = build_metadata JSON_parse req).
  { rewrite !build_metadata_merge. unfold config_props.
    now rewrite config_file_without_config, Hcf, Hparse. }
  unfold post_uploads. rewrite audio_of_without_config.
  unfold accept. now rewrite Hmd.
Qed.

Lemma index_key_inj (a b : nat) : index_key a = index_key b -> a = b.
Proof.
  unfold index_key. intros H.
  assert (Hdec : forall n,
             option_map Nat.of_uint
               (NilZero.uint_of_string (NilZero.string_of_uint (Nat.to_uint n)))
             = Some n).
  { intros n. destruct (Nat.to_uint n) eqn:E;
      try (rewrite NilZero.usu by discriminate; simpl; rewrite <- E;
           now rewrite DecimalNat.Unsigned.of_to).
    rewrite NilZero.usu_nil. simpl. f_equal.
    rewrite <- (DecimalNat.Unsigned.of_to n), E. reflexivity. }
  pose proof (Hdec a) as Ha. rewrite H, Hdec in Ha. now injection Ha.
Qed.

Lemma indexed_lookup {A : Type} (f : A -> jsval) (l : list A) (n i : nat) :
  (list_to_map (indexed f n l) : gmap string jsval) !! index_key (n + i)
  = f <$> l !! i.
Proof.
  revert n i. induction l as [|x l IH]; intros n i; simpl.
  - now rewrite lookup_empty.
  - destruct i as [|i].
    + rewrite Nat.add_0_r, lookup_insert_eq. reflexivity.
    + rewrite lookup_insert_ne.
      * rewrite <- Nat.add_succ_comm. apply IH.
      * intros E. apply index_key_inj in E. lia.
Qed.

Lemma indexed_lookup_none {A : Type} (f : A -> jsval) (l : list A) (n : nat)
    (k : string) :
  (forall i, (i < length l)%nat -> k <> index_key (n + i)) ->
  (list_to_map (indexed f n l) : gmap string jsval) !! k = None.
Proof.
  revert n. induction l as [|x l IH]; intros n H; simpl.
  - apply lookup_empty.
  - rewrite lookup_insert_ne.
    + apply IH. intros i Hi. rewrite Nat.add_succ_comm. apply H. simpl. lia.
    + intros E. apply (H 0%nat); [simpl; lia|]. now rewrite Nat.add_0_r.
Qed.

(** C8. The metadata stored for an accepted upload is the defaults
    [{language: "en", speakerCount: 1}] overridden by the fields of the
    request body and, when a config file is supplied and parses, overridden
    in turn by what the parsed value holds: the properties of an object, the
    elements of an array under their indices, nothing for null, a boolean or
    a number. A config file that is not valid JSON changes nothing: the
    metadata is that of the body over the defaults and the whole outcome is
    that of the same request without the config file. *)
Theorem accepted_metadata_merges :
  forall cfg JSON_parse env req st,
    reply_code (out_reply (post_uploads cfg JSON_parse env req st)) = Some 202 ->
    exists r,
      Map_get (uuid env) (uploads (out_engine (post_uploads cfg JSON_parse env req st)))
      = Some r
      /\ (config_file req = None -> metadata r = req_body req ∪ default_metadata)
      /\ (forall cf o,
             config_file req = Some cf -> JSON_parse (buffer cf) = Some (JObj o) ->
             metadata r = o ∪ (req_body req ∪ default_metadata))
      /\ (forall cf l,
             config_file req = Some cf -> JSON_parse (buffer cf) = Some (JArr l) ->
             (forall i v, l !! i = Some v -> metadata r !! index_key i = Some v)
             /\ (forall k,
                    (forall i, (i < length l)%nat -> k <> index_key i) ->
                    metadata r !! k = (req_body req ∪ default_metadata) !! k))
      /\ (forall cf v,
             config_file req = Some cf -> JSON_parse (buffer cf) = Some v ->
             v = JNull \/ (exists b, v = JBool b) \/ (exists n, v = JNum n) ->
             metadata r = req_body req ∪ default_metadata)
      /\ (forall cf,
             config_file req = Some cf -> JSON_parse (buffer cf) = None ->
             metadata r = req_body req ∪ default_metadata
             /\ post_uploads cfg JSON_parse env req st
                = post_uploads cfg JSON_parse env (without_config req) st).
Proof.
  intros cfg JSON_parse env req st H202.
  destruct (post_accepted_inv _ _ _ _ _ H202)
    as (audioFile & _ & _ & _ & _ & _ & Hst).
  rewrite Hst, accept_engine. cbv zeta. eexists. split.
  { simpl. apply alist_get_set_same. }
  cbn [metadata uploadRecord]. unfold build_metadata.
  rewrite body_over_defaults. cbv zeta.
  split; [|split; [|split; [|split]]].
  - intros ->. reflexivity.
  - intros cf o -> ->. reflexivity.
  - intros cf l -> ->. unfold obj_spread, own_props. split.
    + intros i v Hv. apply lookup_union_Some_l.
      pose proof (indexed_lookup (fun x => x) l 0 i) as Hi.
      simpl in Hi. rewrite Hi, Hv. reflexivity.
    + intros k Hk. apply lookup_union_r. now apply indexed_lookup_none.
  - intros cf v -> -> [-> | [(b & ->) | (n & ->)]]; unfold obj_spread; simpl;
      now rewrite (left_id_L ∅ (∪)).
  - intros cf Hcf Hparse. split.
    + now rewrite Hcf, Hparse.
    + eapply post_without_unparsed_config; eassumption.
Qed.

(** A config file that sets the language next to a body that sets it too,
    and a config file that is not JSON. *)
Lemma accepted_metadata_merges_witness :
  (exists r,
      Map_get "u1"
        (uploads
           (out_engine
              (post_uploads CONFIG sample_parse_config
                 (mkPostEnv (1 # 2) (1 # 2) (1 # 2) (1 # 2) (1 # 2) "u1" 1000 (1 # 2) (1 # 2))
                 (mkRequest
                    (Some (mkFiles (Some [sample_audio])
                             (Some [mkFile "c.json" "application/json" 17
                                      sample_config_text])))
                    {[ "language" := JStr "de"; "topic" := JStr "memo" ]})
                 initial))) = Some r
      /\ metadata r !! "language" = Some (JStr "fr")
      /\ metadata r !! "topic" = Some (JStr "memo")
      /\ metadata r !! "speakerCount" = Some (JNum (Fin 1)))
  /\ (exists r,
         Map_get "u1"
           (uploads
              (out_engine
                 (post_uploads CONFIG sample_parse
                    (mkPostEnv (1 # 2) (1 # 2) (1 # 2) (1 # 2) (1 # 2) "u1" 1000 (1 # 2) (1 # 2))
                    (mkRequest
                       (Some (mkFiles (Some [sample_audio])
                                (Some [mkFile "c.json" "application/json" 5 "{oops"])))
                       {[ "language" := JStr "de" ]})
                    initial))) = Some r
         /\ metadata r = {[ "language" := JStr "de" ]} ∪ default_metadata).
Proof.
  split.
  - destruct (accepted_metadata_merges CONFIG sample_parse_config
                (mkPostEnv (1 # 2) (1 # 2) (1 # 2) (1 # 2) (1 # 2) "u1" 1000 (1 # 2) (1 # 2))
                (mkRequest
                   (Some (mkFiles (Some [sample_audio])
                            (Some [mkFile "c.json" "application/json" 17
                                     sample_config_text])))
                   {[ "language" := JStr "de"; "topic" := JStr "memo" ]})
                initial eq_refl) as (r & Hg & _ & Hobj & _).
    exists r. split; [exact Hg|].
    rewrite (Hobj _ _ eq_refl eq_refl). repeat split; reflexivity.
  - destruct (accepted_metadata_merges CONFIG sample_parse
                (mkPostEnv (1 # 2) (1 # 2) (1 # 2) (1 # 2) (1 # 2) "u1" 1000 (1 # 2) (1 # 2))
                (mkRequest
                   (Some (mkFiles (Some [sample_audio])
                            (Some [mkFile "c.json" "application/json" 5 "{oops"])))
                   {[ "language" := JStr "de" ]})
                initial eq_refl) as (r & Hg & _ & _ & _ & _ & Hbad).
    exists r. split; [exact Hg|].
    exact (proj1 (Hbad _ eq_refl eq_refl)).
Defined.

(** ** What the responses show *)

Lemma status_response_same (r1 r2 : upload) :
  same_except_willFail r1 r2 -> status_response r2 = status_response r1.
Proof. unfold same_except_willFail. intros ->. reflexivity. Qed.

Lemma summary_same (r1 r2 : upload) :
  same_except_willFail r1 r2 -> summary r2 = summary r1.
Proof. unfold same_except_willFail. intros ->. reflexivity. Qed.

Lemma alist_get_same_except (k : string) (m1 m2 : list (string * upload)) :
  stores_same_except_willFail m1 m2 ->
  match alist_get k m1, alist_get k m2 with
  | Some r1, Some r2 => same_except_willFail r1 r2
  | None, None => True
  | _, _ => False
  end.
Proof.
  induction 1 as [|[k1 r1] [k2 r2] m1 m2 (Hk & Hr) Hm IH]; simpl; [exact I|].
  simpl in Hk. subst k2. destruct (String.eqb k k1); [exact Hr | exact IH].
Qed.

Lemma map_summary_same_except (m1 m2 : list (string * upload)) :
  stores_same_except_willFail m1 m2 ->
  map_summary (Map_values m2) = map_summary (Map_values m1).
Proof.
  induction 1 as [|[k1 r1] [k2 r2] m1 m2 (Hk & Hr) Hm IH]; [reflexivity|].
  change (Map_values ((k2, r2) :: m2)) with (r2 :: Map_values m2).
  change (Map_values ((k1, r1) :: m1)) with (r1 :: Map_values m1).
  cbn [map_summary]. simpl in Hr. now rewrite (summary_same _ _ Hr), IH.
Qed.

Lemma promote_set_willFail (p : number) (w : bool) (r : upload) :
  promote p (set_willFail w r) = set_willFail w (promote p r).
Proof.
  unfold promote. simpl.
  now destruct (Status_eqb (status r) queued && num_gtb p 5).
Qed.

Lemma twins_step (T : Q) (env : tick_env) (t1 t2 : task) :
  twins t1 t2 -> twins (step T t1 env) (step T t2 env).
Proof.
  intros [(H1 & H2 & Hs) | (H1 & H2 & Ht)].
  - unfold step. rewrite H1, H2. unfold same_except_willFail in Hs.
    remember (willFail (t_record t2)) as w eqn:Hw. clear Hw.
    rewrite Hs. unfold tick.
    change (compute_progress T (now_elapsed env) (set_willFail w (t_record t1)))
      with (compute_progress T (now_elapsed env) (t_record t1)).
    set (p := compute_progress T (now_elapsed env) (t_record t1)).
    destruct (num_geb p 100).
    + right. cbn [t_cleared t_record]. repeat split; apply finish_terminal.
    + left. cbn [t_cleared t_record]. repeat split.
      rewrite promote_set_willFail. reflexivity.
  - right. rewrite !step_cleared by assumption. tauto.
Qed.

Lemma twins_run (T : Q) (envs : list tick_env) (t1 t2 : task) :
  twins t1 t2 -> twins (run T envs t1) (run T envs t2).
Proof.
  revert t1 t2. induction envs as [|env envs IH]; intros t1 t2 H; [exact H|].
  unfold run in *. simpl. apply IH. now apply twins_step.
Qed.

Lemma status_response_keys (r : upload) (o : gmap string jsval) :
  status_response r = Some o ->
  o !! "willFail" = None /\ o !! "completesAt" = None.
Proof.
  unfold status_response.
  destruct (toISOString (Some (createdAt r))) as [created|]; [|discriminate].
  destruct (status r); simpl;
    try (destruct (toISOString (completedAt r)) as [done|]; [|discriminate]);
    intros [= <-]; split; reflexivity.
Qed.

Lemma summary_keys (u : upload) (o : gmap string jsval) :
  summary u = Some o ->
  o !! "willFail" = None /\ o !! "completesAt" = None.
Proof.
  unfold summary.
  destruct (toISOString (Some (createdAt u))) as [created|]; [|discriminate].
  intros [= <-]; split; reflexivity.
Qed.

(** C9. The response of the status query and the elements of the listing
    have no [willFail] and no [completesAt] property. Two records created
    alike except for [willFail] and advanced by the same ticks differ only in
    [willFail] for as long as both are non-terminal, and engines whose records
    differ only in [willFail] give the same reply to every status query and
    to the listing. *)
Theorem responses_hide_willFail :
  (forall r o, status_response r = Some o ->
               o !! "willFail" = None /\ o !! "completesAt" = None)
  /\ (forall u o, summary u = Some o ->
                  o !! "willFail" = None /\ o !! "completesAt" = None)
  /\ (forall uploadId audioFile md now pt T envs,
         let t1 := run T envs (mkTask (uploadRecord uploadId audioFile md now pt true) false) in
         let t2 := run T envs (mkTask (uploadRecord uploadId audioFile md now pt false) false) in
         terminal (status (t_record t1)) = false ->
         terminal (status (t_record t2)) = false ->
         same_except_willFail (t_record t1) (t_record t2)
         /\ status_response (t_record t2) = status_response (t_record t1)
         /\ summary (t_record t2) = summary (t_record t1))
  /\ (forall cfg st1 st2,
         stores_same_except_willFail (uploads st1) (uploads st2) ->
         (forall env uploadId,
             out_reply (get_status cfg env uploadId st2)
             = out_reply (get_status cfg env uploadId st1))
         /\ out_reply (list_uploads st2) = out_reply (list_uploads st1)).
Proof.
  split; [exact status_response_keys|]. split; [exact summary_keys|]. split.
  - intros uploadId audioFile md now0 pt T envs t1 t2 Hn1 Hn2.
    assert (Htw : twins t1 t2).
    { apply twins_run. left. repeat split. }
    destruct Htw as [(_ & _ & Hs) | (_ & _ & Ht1 & _)]; [|congruence].
    split; [exact Hs|]. split; [now apply status_response_same | now apply summary_same].
  - intros cfg st1 st2 Hst. split.
    + intros env uploadId. unfold get_status.
      destruct (Qlt_bool (g_rnd_timeout env) (timeoutRate cfg)); [reflexivity|].
      simpl. unfold lookup_status, Map_get.
      pose proof (alist_get_same_except uploadId _ _ Hst) as Hg.
      destruct (alist_get uploadId (uploads st1)) as [r1|],
               (alist_get uploadId (uploads st2)) as [r2|]; try contradiction;
        [|reflexivity].
      now rewrite (status_response_same _ _ Hg).
    + unfold list_uploads. rewrite (map_summary_same_except _ _ Hst).
      now destruct (map_summary _).
Qed.

(** Both outcomes of the draw at 40% of a 5 s upload. *)
Lemma responses_hide_willFail_witness :
  status_response
    (t_record (run 5000 [mkTickEnv 2000 2001 (1 # 2); mkTickEnv 3000 3001 (1 # 2)]
                 (mkTask (sample_record 5000 false) false)))
  = status_response
      (t_record (run 5000 [mkTickEnv 2000 2001 (1 # 2); mkTickEnv 3000 3001 (1 # 2)]
                   (mkTask (sample_record 5000 true) false))).
Proof.
  destruct responses_hide_willFail as (_ & _ & H & _).
  exact (proj1 (proj2 (H "u1" sample_audio ∅ 1000 5000%Q 5000%Q
                         [mkTickEnv 2000 2001 (1 # 2); mkTickEnv 3000 3001 (1 # 2)]
                         eq_refl eq_refl))).
Defined.

(** ** Frame of the handlers *)

(** An accepted upload writes the entry of its own id and no other. *)
Lemma post_keeps_other_records cfg JSON_parse env req st (k : string) :
  k <> uuid env ->
  Map_get k (uploads (out_engine (post_uploads cfg JSON_parse env req st)))
  = Map_get k (uploads st).
Proof.
  intros Hk. unfold post_uploads.
  destruct (Qlt_bool (rnd_timeout env) (timeoutRate cfg)); [reflexivity|].
  destruct (Qlt_bool (rnd_failure env) (uploadFailureRate cfg)).
  { now destruct (array_get errors _). }
  destruct (audio_of req) as [audioFile|]; [|reflexivity].
  destruct (negb (supported (mimetype audioFile))); [reflexivity|].
  pose proof (accept_engine cfg JSON_parse env req audioFile st) as Hacc.
  destruct (accept cfg JSON_parse env req audioFile st) as [r st']. simpl in *.
  subst st'. simpl. now apply alist_get_set_other.
Qed.

(** With a processing failure rate of 1 every accepted upload will fail. *)
Lemma willFail_certain cfg (u : Q) :
  (processingFailureRate cfg == 1)%Q -> unit_interval u ->
  Qlt_bool u (processingFailureRate cfg) = true.
Proof.
  intros Hrate (_ & Hu). apply Qlt_bool_iff. now rewrite Hrate.
Qed.

(** ** The engine runs the task of each record *)

Lemma nth_error_replace_nth_other {A : Type} (n m : nat) (x : A) (l : list A) :
  m <> n -> nth_error (replace_nth n x l) m = nth_error l m.
Proof.
  revert m l. induction n as [|n IH]; intros [|m] [|y l] H; simpl;
    try reflexivity; try congruence.
  apply IH. congruence.
Qed.

Lemma post_intervals cfg JSON_parse env req st :
  intervals (out_engine (post_uploads cfg JSON_parse env req st)) = intervals st
  \/ exists T,
       intervals (out_engine (post_uploads cfg JSON_parse env req st))
       = (intervals st ++ [mkInterval (uuid env) T false])%list.
Proof.
  unfold post_uploads.
  destruct (Qlt_bool (rnd_timeout env) (timeoutRate cfg)); [now left|].
  destruct (Qlt_bool (rnd_failure env) (uploadFailureRate cfg)).
  { left. now destruct (array_get errors _). }
  destruct (audio_of req) as [audioFile|]; [|now left].
  destruct (negb (supported (mimetype audioFile))); [now left|].
  pose proof (accept_engine cfg JSON_parse env req audioFile st) as Hacc.
  destruct (accept cfg JSON_parse env req audioFile st) as [r st']. simpl in *.
  subst st'. right. simpl. eauto.
Qed.

Lemma nth_error_app_inv {A : Type} (l : list A) (x y : A) (m : nat) :
  nth_error (l ++ [x]) m = Some y ->
  nth_error l m = Some y \/ (m = length l /\ y = x).
Proof.
  revert m. induction l as [|z l IH]; intros [|m]; simpl.
  - intros [= <-]. now right.
  - destruct m; discriminate.
  - intros H. now left.
  - intros H. destruct (IH _ H) as [?|(-> & ->)]; auto.
Qed.

Lemma nth_error_app_keep {A : Type} (l : list A) (x y : A) (n : nat) :
  nth_error l n = Some y -> nth_error (l ++ [x]) n = Some y.
Proof.
  revert n. induction l as [|z l IH]; intros [|n]; simpl; try discriminate; auto.
Qed.

Lemma owns_post cfg JSON_parse env req st k n T t :
  owns k n T st -> task_at k n st = Some t -> uuid env <> k ->
  owns k n T (out_engine (post_uploads cfg JSON_parse env req st))
  /\ task_at k n (out_engine (post_uploads cfg JSON_parse env req st)) = Some t.
Proof.
  intros ((c & Hn) & Huniq) Ht Hfresh.
  pose proof (post_keeps_other_records cfg JSON_parse env req st k) as Hrec.
  unfold task_at, owns in *. rewrite Hrec by congruence.
  destruct (post_intervals cfg JSON_parse env req st) as [-> | (T' & ->)].
  - split; [|exact Ht]. split; eauto.
  - rewrite Hn in Ht. rewrite (nth_error_app_keep _ _ _ _ Hn).
    split; [|exact Ht]. split.
    + exists c. reflexivity.
    + intros m iv Hm Hid.
      destruct (nth_error_app_inv _ _ _ _ Hm) as [Hin | (_ & ->)];
        [eauto | simpl in Hid; congruence].
Qed.

Lemma owns_fire k n T st t m env :
  owns k n T st -> task_at k n st = Some t ->
  owns k n T (fire m env st)
  /\ task_at k n (fire m env st)
     = Some (if Nat.eqb m n then step T t env else t).
Proof.
  intros ((c & Hn) & Huniq) Ht.
  destruct (Nat.eqb m n) eqn:Emn.
  - apply Nat.eqb_eq in Emn. subst m.
    unfold task_at in Ht. rewrite Hn in Ht.
    destruct (Map_get k (uploads st)) as [r|] eqn:Hg; [|discriminate].
    injection Ht as <-.
    destruct (fire_runs_step n env st _ r Hn Hg) as (Hg' & Hn').
    cbn [iv_uploadId iv_totalTime iv_cleared] in Hg', Hn'.
    split.
    + split; [eauto|]. intros m iv Hm Hid.
      destruct (Nat.eq_dec m n) as [|Hne]; [assumption|].
      apply (Huniq m iv); [|exact Hid].
      unfold fire in Hm. rewrite Hn in Hm. cbn [iv_cleared] in Hm.
      destruct c; [exact Hm|].
      destruct (interval_callback _ _ _ _) as [mm cc]. simpl in Hm.
      now rewrite nth_error_replace_nth_other in Hm.
    + unfold task_at. rewrite Hg', Hn'. cbn [iv_cleared].
      now destruct (step T _ env).
  - apply Nat.eqb_neq in Emn.
    destruct (nth_error (intervals st) m) as [iv|] eqn:Hm.
    2:{ unfold fire. rewrite Hm. split; [split; eauto | exact Ht]. }
    assert (Hid : iv_uploadId iv <> k).
    { intros Hid. apply Emn. eapply Huniq; eassumption. }
    pose proof (fire_keeps_other_records m env st iv k Hm) as Hrec.
    unfold task_at in *. rewrite Hrec by congruence.
    unfold fire. rewrite Hm.
    destruct (iv_cleared iv); [split; [split; eauto | exact Ht]|].
    destruct (interval_callback _ _ _ _) as [mm cc]. simpl.
    rewrite nth_error_replace_nth_other by congruence.
    split; [|exact Ht]. split.
    + exists c. cbn [intervals].
      now rewrite nth_error_replace_nth_other by congruence.
    + intros j iv' Hj Hid'. cbn [intervals] in Hj.
      destruct (Nat.eq_dec j m) as [->|Hjm].
      * rewrite (nth_error_replace_nth _ _ _ _ Hm) in Hj.
        injection Hj as <-. simpl in Hid'. contradiction.
      * rewrite nth_error_replace_nth_other in Hj by assumption. eauto.
Qed.

(** As long as no later upload draws the id of a record again, the record
    and its interval in the engine go through exactly the run of the task on
    the timer events of that interval. *)
Lemma engine_runs_task cfg JSON_parse k n T evs :
  forall st t,
    owns k n T st -> task_at k n st = Some t ->
    Forall (fresh_for k) evs ->
    owns k n T (run_events cfg JSON_parse evs st)
    /\ task_at k n (run_events cfg JSON_parse evs st)
       = Some (run T (ticks_of n evs) t).
Proof.
  induction evs as [|ev evs IH]; intros st t Hown Ht Hfresh; [now split|].
  inversion Hfresh as [|? ? Hev Hevs]; subst.
  unfold run_events in *. cbn [fold_left].
  destruct ev as [env req|env uploadId| |m env]; cbn [handle ticks_of flat_map].
  - destruct (owns_post cfg JSON_parse env req st k n T t Hown Ht Hev) as (Ho & Hta).
    exact (IH _ _ Ho Hta Hevs).
  - assert (Hst : out_engine (get_status cfg env uploadId st) = st).
    { unfold get_status. now destruct (Qlt_bool _ _). }
    rewrite Hst. exact (IH _ _ Hown Ht Hevs).
  - assert (Hst : out_engine (list_uploads st) = st).
    { unfold list_uploads. now destruct (map_summary _). }
    rewrite Hst. exact (IH _ _ Hown Ht Hevs).
  - destruct (owns_fire k n T st t m env Hown Ht) as (Ho & Hta).
    destruct (IH _ _ Ho Hta Hevs) as (Ho' & Hta'). split; [exact Ho'|].
    rewrite Hta'. f_equal. destruct (Nat.eqb m n); reflexivity.
Qed.

(** An accepted upload whose id no interval of the engine carries starts
    such a task, on the record of [uploadRecord] and a fresh interval. *)
Lemma accepted_upload_owns cfg JSON_parse env req st :
  reply_code (out_reply (post_uploads cfg JSON_parse env req st)) = Some 202 ->
  (forall m iv, nth_error (intervals st) m = Some iv -> iv_uploadId iv <> uuid env) ->
  exists audioFile T,
    let st1 := out_engine (post_uploads cfg JSON_parse env req st) in
    let r0 :=
      uploadRecord (uuid env) audioFile (build_metadata JSON_parse req) (now env)
        (minProcessingTime cfg
         + rnd_time env * (maxProcessingTime cfg - minProcessingTime cfg))%Q
        (Qlt_bool (rnd_willFail env) (processingFailureRate cfg)) in
    owns (uuid env) (length (intervals st)) T st1
    /\ task_at (uuid env) (length (intervals st)) st1 = Some (mkTask r0 false).
Proof.
  intros H202 Hfresh.
  destruct (post_accepted_inv _ _ _ _ _ H202)
    as (audioFile & _ & _ & _ & _ & _ & Hst1).
  pose proof (accept_engine cfg JSON_parse env req audioFile st) as Hacc.
  cbv zeta in Hacc. rewrite <- Hst1 in Hacc.
  exists audioFile. eexists. cbv zeta. rewrite Hacc. split.
  - split.
    + exists false. simpl. apply nth_error_snoc.
    + intros m iv Hm Hid. simpl in Hm.
      destruct (nth_error_app_inv _ _ _ _ Hm) as [Hin | (-> & _)]; [|reflexivity].
      exfalso. exact (Hfresh m iv Hin Hid).
  - unfold task_at. simpl. unfold Map_get, Map_set.
    now rewrite alist_get_set_same, nth_error_snoc.
Qed.

(** Once the interval of a record is cleared, no event of the server changes
    the record. *)
Lemma cleared_record_is_stable cfg JSON_parse k n T evs st t :
  owns k n T st -> task_at k n st = Some t -> t_cleared t = true ->
  Forall (fresh_for k) evs ->
  Map_get k (uploads (run_events cfg JSON_parse evs st)) = Some (t_record t).
Proof.
  intros Hown Ht Hc Hfresh.
  destruct (engine_runs_task cfg JSON_parse k n T evs st t Hown Ht Hfresh)
    as (_ & Hta).
  rewrite run_cleared in Hta by assumption.
  unfold task_at in Hta.
  destruct (Map_get k _) as [r|]; [|discriminate].
  destruct (nth_error _ n); [|discriminate].
  now injection Hta as <-.
Qed.

(** * Further properties of the code *)

(** ** generateMockTranscript *)




(** ** What a tick keeps *)

Lemma step_same_upload (T : Q) (t : task) (env : tick_env) :
  same_upload (t_record t) (t_record (step T t env)).
Proof.
  unfold step. destruct (t_cleared t); [repeat split|].
  unfold tick.
  set (p := compute_progress T (now_elapsed env) (t_record t)).
  destruct (num_geb p 100); simpl.
  - unfold finish.
    destruct (promote_cases p (t_record t)) as [-> | ->];
      destruct (willFail _); repeat split.
  - destruct (promote_cases p (t_record t)) as [-> | ->]; repeat split.
Qed.

Lemma same_upload_trans (a b c : upload) :
  same_upload a b -> same_upload b c -> same_upload a c.
Proof.
  unfold same_upload. intros (A1 & A2 & A3 & A4 & A5 & A6 & A7 & A8)
                             (B1 & B2 & B3 & B4 & B5 & B6 & B7 & B8).
  repeat split; congruence.
Qed.

Lemma run_same_upload (T : Q) (envs : list tick_env) (t : task) :
  same_upload (t_record t) (t_record (run T envs t)).
Proof.
  revert t. induction envs as [|env envs IH]; intros t; [repeat split|].
  unfold run in *. simpl. eapply same_upload_trans; [apply step_same_upload | apply IH].
Qed.

(** X2. No sequence of timer events changes the id, file name, MIME type, size,
    metadata, creation time, completion target or failure flag of a record;
    a tick writes status, progress, error, transcript and completedAt only. *)
Theorem ticks_keep_creation_fields :
  forall T envs t,
    let r := t_record t in
    let r' := t_record (run T envs t) in
    id r' = id r /\ filename r' = filename r /\ mimeType r' = mimeType r
    /\ size r' = size r /\ metadata r' = metadata r
    /\ createdAt r' = createdAt r /\ completesAt r' = completesAt r
    /\ willFail r' = willFail r.
Proof. intros T envs t. apply run_same_upload. Qed.

Lemma step_rank (T : Q) (t : task) (env : tick_env) :
  (rank (status (t_record t)) <= rank (status (t_record (step T t env))))%nat.
Proof.
  unfold step. destruct (t_cleared t); [lia|].
  unfold tick.
  set (p := compute_progress T (now_elapsed env) (t_record t)).
  destruct (num_geb p 100); simpl.
  - pose proof (finish_terminal env (set_progress p (promote p (t_record t)))) as Ht.
    destruct (status (finish env _)); try discriminate;
      destruct (status (t_record t)); simpl; lia.
  - destruct (promote_keeps p (t_record t)) as [-> | (-> & _ & ->)]; simpl; lia.
Qed.

Lemma history_rank_sorted (T : Q) (envs : list tick_env) (t : task) :
  Sorted (fun a b => (rank a <= rank b)%nat)
    (map status (t_record t :: history T envs t)).
Proof.
  revert t. induction envs as [|env envs IH]; intros t.
  - simpl. repeat constructor.
  - change (history T (env :: envs) t)
      with (t_record (step T t env) :: history T envs (step T t env)).
    specialize (IH (step T t env)). simpl in *.
    constructor; [exact IH|]. constructor. apply step_rank.
Qed.

(** X3. Along any sequence of timer events the status of a record only moves
    forward in the order queued, processing, terminal: it never goes from
    [processing] back to [queued] nor from a terminal state back to a
    non-terminal one. *)
Theorem status_never_goes_back :
  forall T envs t,
    StronglySorted (fun a b => (rank a <= rank b)%nat)
      (map status (t_record t :: history T envs t)).
Proof.
  intros T envs t. apply Sorted_StronglySorted; [|apply history_rank_sorted].
  intros a b c. apply Nat.le_trans.
Qed.

(** ** The fields of a record follow its status *)

Lemma task_shape_step (T : Q) (t : task) (env : tick_env) :
  task_shape t -> task_shape (step T t env).
Proof.
  intros Hs. unfold step. destruct (t_cleared t) eqn:Hc; [exact Hs|].
  unfold task_shape in Hs. rewrite Hc in Hs. destruct Hs as (Hnt & Hdone).
  unfold tick.
  set (p := compute_progress T (now_elapsed env) (t_record t)).
  destruct (num_geb p 100) eqn:Hge.
  - assert (Hp : p = Fin 100) by (apply Math_min_geb; exact Hge).
    unfold task_shape. cbn [t_cleared t_record]. unfold finish.
    destruct (promote_cases p (t_record t)) as [-> | ->];
      destruct (willFail _); simpl; (split; [assumption || reflexivity|]);
      (left; now auto) || (right; eauto 10).
  - unfold task_shape. cbn [t_cleared t_record].
    destruct (promote_cases p (t_record t)) as [-> | ->]; simpl; auto.
Qed.

Lemma task_shape_run (T : Q) (envs : list tick_env) (t : task) :
  task_shape t -> task_shape (run T envs t).
Proof.
  revert t. induction envs as [|env envs IH]; intros t H; [exact H|].
  unfold run in *. simpl. apply IH. now apply task_shape_step.
Qed.

(** X4. After any sequence of timer events on a created record: the interval is
    cleared exactly when the status is terminal, [completedAt] is set exactly
    when the status is [completed], a terminal record (failed ones included)
    shows progress 100, and the transcript of a completed record is one that
    [generateMockTranscript] produced. *)
Theorem record_fields_follow_status :
  forall uploadId audioFile md now pt wf T envs,
    let t := run T envs (mkTask (uploadRecord uploadId audioFile md now pt wf) false) in
    let r := t_record t in
    (t_cleared t = true <-> terminal (status r) = true)
    /\ (status r = completed <-> completedAt r <> None)
    /\ (terminal (status r) = true -> progress r = Fin 100)
    /\ (status r = completed ->
        exists u, transcript r = Some (generateMockTranscript u)).
Proof.
  intros uploadId audioFile md now0 pt wf T envs t r.
  assert (Hs : task_shape t).
  { apply task_shape_run. unfold task_shape. simpl. auto. }
  unfold task_shape in Hs. fold r in Hs.
  destruct (t_cleared t).
  - destruct Hs as (Hp & [(Hst & Hd & _) | (Hst & (z & Hd) & Htr)]);
      rewrite Hst, Hd; repeat split; try discriminate; try congruence; auto.
  - destruct Hs as (Hnt & Hd). rewrite Hnt, Hd.
    repeat split; try discriminate; try congruence;
      intros E; rewrite E in Hnt; discriminate.
Qed.

(** A failed record shows progress 100. *)
Lemma record_fields_follow_status_witness :
  progress (t_record (run 5000 [mkTickEnv 7000 7001 (1 # 2)]
                        (mkTask (sample_record 5000 true) false))) = Fin 100.
Proof.
  destruct (record_fields_follow_status "u1" sample_audio ∅ 1000 5000%Q true 5000%Q
              [mkTickEnv 7000 7001 (1 # 2)]) as (_ & _ & H & _).
  exact (H eq_refl).
Defined.

(** ** When a tick promotes and when it finishes *)

Lemma Qfloor_ge_iff (z : Z) (y : Q) : z <= Qfloor y <-> (inject_Z z <= y)%Q.
Proof.
  split.
  - intros H. eapply Qle_trans; [|apply Qfloor_le]. now rewrite <- Zle_Qle.
  - intros H. destruct (Z_le_gt_dec z (Qfloor y)) as [|Hgt]; [assumption|].
    exfalso. assert (Hlt : (y < inject_Z z)%Q).
    { eapply Qlt_le_trans; [apply Qlt_floor|]. rewrite <- Zle_Qle. lia. }
    exact (Qlt_not_le _ _ Hlt H).
Qed.

Lemma compute_progress_positive_total (T : Q) (now : Z) (r : upload) :
  (0 < T)%Q ->
  compute_progress T now r = Fin (inject_Z (percent_at T (now - createdAt r))).
Proof.
  intros HT. unfold compute_progress, percent_at, num_div.
  assert (ET : Qeq_bool T 0 = false).
  { destruct (Qeq_bool T 0) eqn:E; [|reflexivity].
    apply Qeq_bool_iff in E. rewrite E in HT. exfalso. exact (Qlt_irrefl _ HT). }
  rewrite ET. cbn [num_mul Math_round Math_min].
  change (Qle_bool 100) with (Qle_bool (inject_Z 100)). rewrite Qle_bool_inject.
  destruct (100 <=? _) eqn:E.
  - rewrite Z.min_l by lia. reflexivity.
  - rewrite Z.min_r by lia. reflexivity.
Qed.

(** The computed percentage is at least [k] exactly from [(k - 1/2) %] of the
    total time on. *)
Lemma percent_at_ge (T : Q) (e k : Z) :
  (0 < T)%Q -> k <= 100 ->
  (k <= percent_at T e <-> (inject_Z (2 * k - 1) * T <= 200 * inject_Z e)%Q).
Proof.
  intros HT Hk. unfold percent_at.
  assert (ET : Qeq_bool T 0 = false).
  { destruct (Qeq_bool T 0) eqn:E; [|reflexivity].
    apply Qeq_bool_iff in E. rewrite E in HT. exfalso. exact (Qlt_irrefl _ HT). }
  rewrite ET.
  assert (Hmin : k <= Z.min 100 (Qfloor (inject_Z e / T * 100 + (1 # 2)))
                 <-> k <= Qfloor (inject_Z e / T * 100 + (1 # 2))) by lia.
  rewrite Hmin, Qfloor_ge_iff.
  set (d := (inject_Z e / T)%Q).
  assert (He : (inject_Z e == d * T)%Q).
  { subst d. field. intros E. rewrite E in HT. exact (Qlt_irrefl _ HT). }
  assert (Hk2 : (inject_Z (2 * k - 1) == 2 * inject_Z k - 1)%Q).
  { rewrite <- (Z.add_opp_r (2 * k) 1), inject_Z_plus, inject_Z_mult. reflexivity. }
  assert (Hassoc : (200 * (d * T) == (200 * d) * T)%Q) by ring.
  rewrite He, Hk2, Hassoc.
  rewrite Qmult_le_r by assumption.
  split; intros H; lra.
Qed.

Lemma num_geb_percent (z k : Z) : num_geb (Fin (inject_Z z)) (inject_Z k) = (k <=? z).
Proof. apply Qle_bool_inject. Qed.

Lemma num_gtb_percent (z k : Z) : num_gtb (Fin (inject_Z z)) (inject_Z k) = (k <? z).
Proof.
  simpl. unfold Qlt_bool. rewrite Qle_bool_inject.
  destruct (z <=? k) eqn:E; simpl; lia.
Qed.

(** X5. For a positive total time the tick of a running task clears the interval
    exactly when the elapsed time has reached 99.5 % of the total time (the
    percentage is rounded, in exact arithmetic), so a record can turn terminal
    slightly before [completesAt], and never before 99.5 %. *)
Theorem tick_finishes_from_99_5_percent :
  forall T t env,
    (0 < T)%Q ->
    t_cleared t = false ->
    (t_cleared (step T t env) = true
     <-> (199 * T <= 200 * inject_Z (now_elapsed env - createdAt (t_record t)))%Q).
Proof.
  intros T t env HT Hc.
  rewrite <- (percent_at_ge T _ 100 HT ltac:(lia)).
  unfold step. rewrite Hc. unfold tick.
  rewrite (compute_progress_positive_total T _ _ HT).
  change (num_geb (Fin (inject_Z ?z)) 100) with (num_geb (Fin (inject_Z z)) (inject_Z 100)).
  rewrite num_geb_percent.
  destruct (100 <=? _) eqn:E; simpl; split; intros; try lia; try discriminate;
    reflexivity.
Qed.

(** A 5 s upload is finished by a tick 4975 ms after its creation. *)
Lemma tick_finishes_from_99_5_percent_witness :
  t_cleared (step 5000 (mkTask (sample_record 5000 false) false)
               (mkTickEnv 5975 5976 (1 # 2))) = true.
Proof.
  apply (tick_finishes_from_99_5_percent 5000%Q
           (mkTask (sample_record 5000 false) false) (mkTickEnv 5975 5976 (1 # 2)));
    [reflexivity | reflexivity | discriminate].
Defined.

(** X6. For a positive total time, the tick of a running task on a [queued]
    record leaves it [queued] while the elapsed time is below 5.5 % of the
    total, makes it [processing] from 5.5 % up to 99.5 %, and terminal from
    there on. *)
Theorem queued_window_is_5_5_percent :
  forall T t env,
    (0 < T)%Q ->
    t_cleared t = false ->
    status (t_record t) = queued ->
    let e := inject_Z (now_elapsed env - createdAt (t_record t)) in
    let s' := status (t_record (step T t env)) in
    (s' = queued <-> (200 * e < 11 * T)%Q)
    /\ (s' = processing <-> (11 * T <= 200 * e)%Q /\ (200 * e < 199 * T)%Q)
    /\ (terminal s' = true <-> (199 * T <= 200 * e)%Q).
Proof.
  intros T t env HT Hc Hq e s'.
  pose proof (percent_at_ge T (now_elapsed env - createdAt (t_record t)) 100 HT
                ltac:(lia)) as H100.
  pose proof (percent_at_ge T (now_elapsed env - createdAt (t_record t)) 6 HT
                ltac:(lia)) as H6.
  change (inject_Z (2 * 100 - 1)) with 199%Q in H100.
  change (inject_Z (2 * 6 - 1)) with 11%Q in H6.
  fold e in H100, H6.
  subst s'. unfold step. rewrite Hc. unfold tick.
  rewrite (compute_progress_positive_total T _ _ HT).
  set (z := percent_at T (now_elapsed env - createdAt (t_record t))) in *.
  change (num_geb (Fin (inject_Z z)) 100) with (num_geb (Fin (inject_Z z)) (inject_Z 100)).
  rewrite num_geb_percent.
  assert (Hlt : forall a b : Q, (a < b)%Q <-> ~ (b <= a)%Q).
  { intros a b. split; [apply Qlt_not_le | apply Qnot_le_lt]. }
  rewrite !Hlt, <- H100, <- H6.
  destruct (100 <=? z) eqn:E100; cbn [fst t_record].
  - pose proof (finish_terminal env
                  (set_progress (Fin (inject_Z z)) (promote (Fin (inject_Z z)) (t_record t))))
      as Hfin.
    destruct (status (finish env _)); try discriminate;
      repeat split; intros; try discriminate; try reflexivity; lia.
  - unfold promote. rewrite Hq.
    change (num_gtb (Fin (inject_Z z)) 5) with (num_gtb (Fin (inject_Z z)) (inject_Z 5)).
    rewrite num_gtb_percent.
    destruct (5 <? z) eqn:E5; simpl; rewrite ?Hq;
      repeat split; intros; try discriminate; try reflexivity; try lia.
Qed.

(** A 5 s upload is still queued 250 ms after its creation. *)
Lemma queued_window_is_5_5_percent_witness :
  status (t_record (step 5000 (mkTask (sample_record 5000 false) false)
                      (mkTickEnv 1250 1251 (1 # 2)))) = queued.
Proof.
  apply (proj1 (queued_window_is_5_5_percent 5000%Q
                  (mkTask (sample_record 5000 false) false)
                  (mkTickEnv 1250 1251 (1 # 2)) eq_refl eq_refl eq_refl)).
  reflexivity.
Defined.

(** X7. Every record finishes: whatever ticks came before, the first tick at or
    after [completesAt] (and later than the creation) leaves a created record
    terminal with progress 100 and its interval cleared. *)
Theorem tick_after_total_time_finishes :
  forall uploadId audioFile md now pt wf T envs env,
    (0 <= T)%Q ->
    now < now_elapsed env ->
    (T <= inject_Z (now_elapsed env - now))%Q ->
    let t' := step T (run T envs (mkTask (uploadRecord uploadId audioFile md now pt wf) false))
                env in
    t_cleared t' = true
    /\ terminal (status (t_record t')) = true
    /\ progress (t_record t') = Fin 100.
Proof.
  intros uploadId audioFile md now0 pt wf T envs env HT Hlater Hdue t'.
  set (t := run T envs (mkTask (uploadRecord uploadId audioFile md now0 pt wf) false))
    in *.
  assert (Hs : task_shape t).
  { apply task_shape_run. unfold task_shape. simpl. auto. }
  assert (Hcr : createdAt (t_record t) = now0).
  { pose proof (run_same_upload T envs
                  (mkTask (uploadRecord uploadId audioFile md now0 pt wf) false)) as H.
    unfold same_upload in H. tauto. }
  assert (Hshape' : task_shape t') by (apply task_shape_step; exact Hs).
  assert (Hc' : t_cleared t' = true).
  { subst t'. unfold step. destruct (t_cleared t) eqn:Hc; [exact Hc|].
    unfold tick.
    assert (Hp : compute_progress T (now_elapsed env) (t_record t) = Fin 100).
    { rewrite compute_progress_percent by (rewrite Hcr; lia || (right; lia)).
      rewrite Hcr. unfold percent_at.
      destruct (Qeq_bool T 0) eqn:ET; [reflexivity|].
      assert (HT' : (0 < T)%Q).
      { apply Qle_lteq in HT. destruct HT as [|E]; [assumption|].
        symmetry in E. apply Qeq_bool_iff in E. congruence. }
      rewrite Z.min_l; [reflexivity|].
      apply Qfloor_ge_iff.
      assert (1 <= inject_Z (now_elapsed env - now0) / T)%Q.
      { apply Qle_shift_div_l; [assumption|]. now rewrite Qmult_1_l. }
      change (inject_Z 100) with 100%Q. lra. }
    rewrite Hp. reflexivity. }
  unfold task_shape in Hshape'. rewrite Hc' in Hshape'.
  destruct Hshape' as (Hp & [(Hst & _) | (Hst & _)]); rewrite Hst; auto.
Qed.

(** A 5 s upload, ticked once early and once 5 s after its creation. *)
Lemma tick_after_total_time_finishes_witness :
  terminal
    (status
       (t_record
          (step 5000
             (run 5000 [mkTickEnv 2000 2001 (1 # 2)]
                (mkTask (sample_record 5000 false) false))
             (mkTickEnv 6000 6001 (1 # 2))))) = true.
Proof.
  refine (proj1 (proj2 (tick_after_total_time_finishes "u1" sample_audio ∅ 1000
                          5000%Q false 5000%Q [mkTickEnv 2000 2001 (1 # 2)]
                          (mkTickEnv 6000 6001 (1 # 2)) _ _ _))).
  - discriminate.
  - reflexivity.
  - discriminate.
Defined.

(** ** Replies of POST /uploads *)

(** X8. [POST /uploads] replies 202 with the new id exactly when neither
    simulated branch is taken and the request carries an audio file of a
    supported type. *)
Theorem upload_accepted_iff :
  forall cfg JSON_parse env req st,
    out_reply (post_uploads cfg JSON_parse env req st)
    = Send 202
        (JObj {[ "uploadId" := JStr (uuid env);
                 "status" := JStr "queued";
                 "message" := JStr "Upload accepted and queued for transcription" ]})
    <-> Qlt_bool (rnd_timeout env) (timeoutRate cfg) = false
        /\ Qlt_bool (rnd_failure env) (uploadFailureRate cfg) = false
        /\ exists audioFile,
             audio_of req = Some audioFile /\ supported (mimetype audioFile) = true.
Proof.
  intros cfg JSON_parse env req st. split.
  - intros H.
    assert (H202 : reply_code (out_reply (post_uploads cfg JSON_parse env req st))
                   = Some 202) by now rewrite H.
    destruct (post_accepted_inv _ _ _ _ _ H202) as (f & Ha & Hs & Ht & Hf & _).
    eauto.
  - intros (Ht & Hf & f & Ha & Hs). unfold post_uploads.
    rewrite Ht, Hf, Ha, Hs. reflexivity.
Qed.

(** X9. Whenever the reply of [POST /uploads] is not 202 (a simulated error, a
    validation error or an exception), no record is stored and no interval is
    started. *)
Theorem rejected_upload_changes_nothing :
  forall cfg JSON_parse env req st,
    reply_code (out_reply (post_uploads cfg JSON_parse env req st)) <> Some 202 ->
    out_engine (post_uploads cfg JSON_parse env req st) = st.
Proof.
  intros cfg JSON_parse env req st. unfold post_uploads.
  destruct (Qlt_bool (rnd_timeout env) (timeoutRate cfg)); [reflexivity|].
  destruct (Qlt_bool (rnd_failure env) (uploadFailureRate cfg)).
  { now destruct (array_get errors _). }
  destruct (audio_of req) as [audioFile|]; [|reflexivity].
  destruct (negb (supported (mimetype audioFile))); [reflexivity|].
  unfold accept. simpl. intros H. now contradiction H.
Qed.

(** A file of an unsupported type leaves the empty engine empty. *)
Lemma rejected_upload_changes_nothing_witness :
  out_engine
    (post_uploads CONFIG sample_parse
       (mkPostEnv (1 # 2) (1 # 2) (1 # 2) (1 # 2) (1 # 2) "u1" 1000 (1 # 2) (1 # 2))
       (mkRequest (Some (mkFiles (Some [mkFile "a.mp3" "audio/mpeg" 9 "ID3"]) None)) ∅)
       initial) = initial.
Proof.
  apply rejected_upload_changes_nothing. discriminate.
Defined.

(** X10. In the simulated-failure branch the draw picks the reply: 500 'Internal
    server error' below one half, 503 'Service temporarily unavailable' from
    one half on. *)
Theorem failure_draw_picks_the_error :
  forall cfg JSON_parse env req st,
    Qlt_bool (rnd_timeout env) (timeoutRate cfg) = false ->
    Qlt_bool (rnd_failure env) (uploadFailureRate cfg) = true ->
    unit_interval (rnd_error env) ->
    ((rnd_error env < 1 # 2)%Q ->
     out_reply (post_uploads cfg JSON_parse env req st)
     = Send 500 (error_body "Internal server error"))
    /\ ((1 # 2 <= rnd_error env)%Q ->
        out_reply (post_uploads cfg JSON_parse env req st)
        = Send 503 (error_body "Service temporarily unavailable")).
Proof.
  intros cfg JSON_parse env req st Ht Hf (H0 & H1). unfold post_uploads.
  rewrite Ht, Hf. simpl length. change (inject_Z (Z.of_nat 2)) with 2%Q.
  split; intros Hu.
  - assert (E : Qfloor (rnd_error env * 2) = 0).
    { apply Z.le_antisymm.
      - apply Z.lt_succ_r. rewrite Zlt_Qlt.
        eapply Qle_lt_trans; [apply Qfloor_le|]. change (inject_Z (Z.succ 0)) with 1%Q. lra.
      - apply Qfloor_ge_iff. change (inject_Z 0) with 0%Q. lra. }
    rewrite E. reflexivity.
  - assert (E : Qfloor (rnd_error env * 2) = 1).
    { apply Z.le_antisymm.
      - apply Z.lt_succ_r. rewrite Zlt_Qlt.
        eapply Qle_lt_trans; [apply Qfloor_le|]. change (inject_Z (Z.succ 1)) with 2%Q. lra.
      - apply Qfloor_ge_iff. change (inject_Z 1) with 1%Q. lra. }
    rewrite E. reflexivity.
Qed.

(** A draw of three quarters gives the 503. *)
Lemma failure_draw_picks_the_error_witness :
  out_reply
    (post_uploads CONFIG sample_parse
       (mkPostEnv (1 # 2) (1 # 20) (3 # 4) (1 # 2) (1 # 2) "u1" 1000 (1 # 2) (1 # 2))
       (mkRequest None ∅) initial)
  = Send 503 (error_body "Service temporarily unavailable").
Proof.
  refine (proj2 (failure_draw_picks_the_error CONFIG sample_parse
                   (mkPostEnv (1 # 2) (1 # 20) (3 # 4) (1 # 2) (1 # 2) "u1" 1000 (1 # 2) (1 # 2))
                   (mkRequest None ∅) initial eq_refl eq_refl _) _).
  - split; [discriminate | reflexivity].
  - discriminate.
Defined.

(** X11. The total time of an accepted upload is drawn inside the configured
    range: for processing times of whole milliseconds, the interval's
    [totalTime] is [completesAt - createdAt], and it lies between
    [minProcessingTime] and [maxProcessingTime], both included. *)
Theorem processing_time_within_config :
  forall cfg JSON_parse env req st,
    reply_code (out_reply (post_uploads cfg JSON_parse env req st)) = Some 202 ->
    unit_interval (rnd_time env) ->
    whole_ms (minProcessingTime cfg) ->
    whole_ms (maxProcessingTime cfg) ->
    (minProcessingTime cfg <= maxProcessingTime cfg)%Q ->
    exists r T,
      Map_get (uuid env) (uploads (out_engine (post_uploads cfg JSON_parse env req st)))
      = Some r
      /\ nth_error (intervals (out_engine (post_uploads cfg JSON_parse env req st)))
           (length (intervals st))
         = Some (mkInterval (uuid env) T false)
      /\ T = (completesAt r - inject_Z (createdAt r))%Q
      /\ createdAt r = now env
      /\ (minProcessingTime cfg <= T)%Q
      /\ (T <= maxProcessingTime cfg)%Q.
Proof.
  intros cfg JSON_parse env req st H202 (H0 & H1) _ _ Hrange.
  destruct (post_accepted_inv _ _ _ _ _ H202)
    as (audioFile & _ & _ & _ & _ & _ & Hst1).
  rewrite Hst1, accept_engine. cbv zeta.
  eexists. eexists. split; [simpl; apply alist_get_set_same|].
  split; [simpl; apply nth_error_snoc|].
  split; [reflexivity|]. split; [reflexivity|].
  cbn [completesAt createdAt uploadRecord].
  set (lo := minProcessingTime cfg) in *. set (hi := maxProcessingTime cfg) in *.
  set (u := rnd_time env) in *.
  assert (Hd : (0 <= hi - lo)%Q) by lra.
  assert (Hlo : (0 <= u * (hi - lo))%Q) by (apply Qmult_le_0_compat; assumption).
  assert (Hhi : (u * (hi - lo) <= 1 * (hi - lo))%Q).
  { apply Qmult_le_compat_r; [now apply Qlt_le_weak | assumption]. }
  split; lra.
Qed.

(** With the shipped configuration the total time is between 5 s and 20 s. *)
Lemma processing_time_within_config_witness :
  exists r T,
    Map_get "u1"
      (uploads
         (out_engine
            (post_uploads CONFIG sample_parse
               (mkPostEnv (1 # 2) (1 # 2) (1 # 2) (1 # 2) (1 # 2) "u1" 1000 (1 # 2) (1 # 2))
               (mkRequest (Some (mkFiles (Some [sample_audio]) None)) ∅)
               initial))) = Some r
    /\ T = (completesAt r - inject_Z (createdAt r))%Q
    /\ (5000 <= T)%Q /\ (T <= 20000)%Q.
Proof.
  destruct (processing_time_within_config CONFIG sample_parse
              (mkPostEnv (1 # 2) (1 # 2) (1 # 2) (1 # 2) (1 # 2) "u1" 1000 (1 # 2) (1 # 2))
              (mkRequest (Some (mkFiles (Some [sample_audio]) None)) ∅)
              initial eq_refl)
    as (r & T & Hg & _ & HT & _ & Hlo & Hhi).
  - split; [discriminate | reflexivity].
  - exists 5000. reflexivity.
  - exists 20000. reflexivity.
  - discriminate.
  - exists r, T. repeat split; assumption.
Defined.

(** ** Timer events on the shared collection *)

(** X12. When the record of a running interval is no longer in the collection,
    its next timer event changes no record, clears that interval and no
    other, and every later timer event of that interval does nothing. *)
Theorem tick_on_missing_record_stops :
  forall n env st iv,
    nth_error (intervals st) n = Some iv ->
    iv_cleared iv = false ->
    Map_get (iv_uploadId iv) (uploads st) = None ->
    uploads (fire n env st) = uploads st
    /\ nth_error (intervals (fire n env st)) n
       = Some (mkInterval (iv_uploadId iv) (iv_totalTime iv) true)
    /\ (forall m, m <> n ->
                  nth_error (intervals (fire n env st)) m = nth_error (intervals st) m)
    /\ (forall env', fire n env' (fire n env st) = fire n env st).
Proof.
  intros n env st iv Hn Hc Hg.
  assert (Hfire : fire n env st
                  = mkEngine (uploads st)
                      (replace_nth n (mkInterval (iv_uploadId iv) (iv_totalTime iv) true)
                         (intervals st))).
  { unfold fire, interval_callback. now rewrite Hn, Hc, Hg. }
  rewrite Hfire. cbn [uploads intervals].
  split; [reflexivity|]. split; [eapply nth_error_replace_nth; eassumption|].
  split; [intros m Hm; now apply nth_error_replace_nth_other|].
  intros env'. unfold fire at 1. cbn [intervals].
  now rewrite (nth_error_replace_nth _ _ _ _ Hn).
Qed.

(** An interval whose record is absent from an empty collection. *)
Lemma tick_on_missing_record_stops_witness :
  nth_error
    (intervals
       (fire 0 (mkTickEnv 2000 2001 (1 # 2))
          (mkEngine [] [mkInterval "gone" 5000 false]))) 0
  = Some (mkInterval "gone" 5000 true)
  /\ fire 0 (mkTickEnv 3000 3001 (1 # 2))
       (fire 0 (mkTickEnv 2000 2001 (1 # 2))
          (mkEngine [] [mkInterval "gone" 5000 false]))
     = fire 0 (mkTickEnv 2000 2001 (1 # 2))
         (mkEngine [] [mkInterval "gone" 5000 false]).
Proof.
  destruct (tick_on_missing_record_stops 0 (mkTickEnv 2000 2001 (1 # 2))
              (mkEngine [] [mkInterval "gone" 5000 false])
              (mkInterval "gone" 5000 false) eq_refl eq_refl eq_refl)
    as (_ & Hn & _ & H).
  split; [exact Hn | exact (H (mkTickEnv 3000 3001 (1 # 2)))].
Defined.

Lemma alist_get_set_known {A : Type} (k k' : string) (v : A) (m : list (string * A)) :
  alist_get k m <> None -> alist_get k (alist_set k' v m) <> None.
Proof.
  intros H. destruct (String.eqb k k') eqn:E.
  - apply String.eqb_eq in E. subst k'. now rewrite alist_get_set_same.
  - apply String.eqb_neq in E. now rewrite alist_get_set_other.
Qed.

Lemma handle_keeps_ids cfg JSON_parse st ev (k : string) :
  Map_get k (uploads st) <> None ->
  Map_get k (uploads (handle cfg JSON_parse st ev)) <> None.
Proof.
  intros H. destruct ev as [env req|env uploadId| |n env]; cbn [handle].
  - unfold post_uploads.
    destruct (Qlt_bool (rnd_timeout env) (timeoutRate cfg)); [exact H|].
    destruct (Qlt_bool (rnd_failure env) (uploadFailureRate cfg)).
    { now destruct (array_get errors _). }
    destruct (audio_of req) as [audioFile|]; [|exact H].
    destruct (negb (supported (mimetype audioFile))); [exact H|].
    pose proof (accept_engine cfg JSON_parse env req audioFile st) as Hacc.
    destruct (accept cfg JSON_parse env req audioFile st) as [r st']. simpl in *.
    subst st'. simpl. now apply alist_get_set_known.
  - unfold get_status. now destruct (Qlt_bool _ _).
  - unfold list_uploads. now destruct (map_summary _).
  - unfold fire. destruct (nth_error (intervals st) n) as [iv|]; [|exact H].
    destruct (iv_cleared iv); [exact H|]. unfold interval_callback.
    destruct (Map_get (iv_uploadId iv) (uploads st)) as [r|]; [|exact H].
    destruct (tick (iv_totalTime iv) env r) as [r' c]. simpl.
    now apply alist_get_set_known.
Qed.

(** X13. No request and no timer event removes a record: an id the collection
    holds is held after any further events, so its status lookup never
    answers 404. *)
Theorem known_id_stays_known :
  forall cfg JSON_parse evs st k,
    Map_get k (uploads st) <> None ->
    Map_get k (uploads (run_events cfg JSON_parse evs st)) <> None
    /\ lookup_status k (run_events cfg JSON_parse evs st)
       <> Send 404 (error_body "Upload not found").
Proof.
  intros cfg JSON_parse evs st k H.
  assert (Hk : Map_get k (uploads (run_events cfg JSON_parse evs st)) <> None).
  { revert st H. induction evs as [|ev evs IH]; intros st H; [exact H|].
    unfold run_events in *. simpl. apply IH. now apply handle_keeps_ids. }
  split; [exact Hk|]. unfold lookup_status.
  destruct (Map_get k (uploads (run_events cfg JSON_parse evs st))) as [r|];
    [|contradiction].
  destruct (status_response r); discriminate.
Qed.

(** A record is still there after its last tick and a later upload. *)
Lemma known_id_stays_known_witness :
  Map_get "u1"
    (uploads
       (run_events CONFIG sample_parse
          [EvFire 0 (mkTickEnv 7000 7001 (1 # 2));
           EvPost (mkPostEnv (1 # 2) (1 # 2) (1 # 2) (1 # 2) (1 # 2) "u2" 8000 (1 # 2) (1 # 2))
             (mkRequest (Some (mkFiles (Some [sample_audio]) None)) ∅)]
          (mkEngine [("u1", sample_record 5000 false)] [mkInterval "u1" 5000 false])))
  <> None.
Proof.
  refine (proj1 (known_id_stays_known CONFIG sample_parse _ _ "u1" _)).
  discriminate.
Defined.

(** X14. As long as no later upload draws the id of a record again, the record is
    written by the timer events of its own interval and by nothing else: after
    any requests and timer events the engine holds for it exactly the task run
    on the ticks of that interval. *)
Theorem record_is_written_by_its_interval_only :
  forall cfg JSON_parse k n T evs st t,
    owns k n T st ->
    task_at k n st = Some t ->
    Forall (fresh_for k) evs ->
    task_at k n (run_events cfg JSON_parse evs st) = Some (run T (ticks_of n evs) t).
Proof.
  intros cfg JSON_parse k n T evs st t Hown Ht Hfresh.
  exact (proj2 (engine_runs_task cfg JSON_parse k n T evs st t Hown Ht Hfresh)).
Qed.

(** One record between a status query, a tick of its own and another
    upload. *)
Lemma record_is_written_by_its_interval_only_witness :
  task_at "u1" 0
    (run_events CONFIG sample_parse
       [EvStatus (mkGetEnv (1 # 2) (1 # 2) (1 # 2)) "u1";
        EvFire 0 (mkTickEnv 2000 2001 (1 # 2));
        EvPost (mkPostEnv (1 # 2) (1 # 2) (1 # 2) (1 # 2) (1 # 2) "u2" 3000 (1 # 2) (1 # 2))
          (mkRequest (Some (mkFiles (Some [sample_audio]) None)) ∅);
        EvFire 1 (mkTickEnv 4000 4001 (1 # 2))]
       (mkEngine [("u1", sample_record 5000 false)] [mkInterval "u1" 5000 false]))
  = Some (run 5000 [mkTickEnv 2000 2001 (1 # 2)] (mkTask (sample_record 5000 false) false)).
Proof.
  apply (record_is_written_by_its_interval_only CONFIG sample_parse "u1" 0%nat 5000%Q).
  - split; [exists false; reflexivity|].
    intros [|m] iv H Hid; [reflexivity|]. simpl in H. destruct m; discriminate.
  - reflexivity.
  - repeat constructor. simpl. discriminate.
Defined.

(** X15. Once the interval of a record is cleared, and as long as no later upload
    draws its id again, no request and no timer event of the server changes
    any field of the record. *)
Theorem finished_record_is_never_rewritten :
  forall cfg JSON_parse k n T evs st t,
    owns k n T st ->
    task_at k n st = Some t ->
    t_cleared t = true ->
    Forall (fresh_for k) evs ->
    Map_get k (uploads (run_events cfg JSON_parse evs st)) = Some (t_record t).
Proof.
  intros cfg JSON_parse k n T evs st t.
  apply cleared_record_is_stable.
Qed.

(** A finished record survives a status query, a listing, a timer event and
    another upload unchanged. *)
Lemma finished_record_is_never_rewritten_witness :
  Map_get "u1"
    (uploads
       (run_events CONFIG sample_parse
          [EvStatus (mkGetEnv (1 # 2) (1 # 2) (1 # 2)) "u1"; EvList;
           EvFire 0 (mkTickEnv 9000 9001 (1 # 2));
           EvPost (mkPostEnv (1 # 2) (1 # 2) (1 # 2) (1 # 2) (1 # 2) "u2" 9500 (1 # 2) (1 # 2))
             (mkRequest (Some (mkFiles (Some [sample_audio]) None)) ∅)]
          (mkEngine
             [("u1", set_error (Some failure_message)
                       (set_status failed (sample_record 5000 true)))]
             [mkInterval "u1" 5000 true])))
  = Some (set_error (Some failure_message) (set_status failed (sample_record 5000 true))).
Proof.
  apply (finished_record_is_never_rewritten CONFIG sample_parse "u1" 0%nat 5000%Q _ _
           (mkTask (set_error (Some failure_message)
                      (set_status failed (sample_record 5000 true))) true)).
  - split; [exists true; reflexivity|].
    intros [|m] iv H Hid; [reflexivity|]. simpl in H. destruct m; discriminate.
  - reflexivity.
  - reflexivity.
  - repeat constructor. simpl. discriminate.
Defined.

(** ** What the queries show *)

(** X16. The response object of the status query always has the id, status,
    progress and file name of the record; it has the [transcript] and
    [completedAt] properties exactly when the record is [completed] and the
    [error] property exactly when it is [failed]. *)
Theorem status_response_shape :
  forall r o,
    status_response r = Some o ->
    o !! "uploadId" = Some (JStr (id r))
    /\ o !! "status" = Some (JStr (Status_name (status r)))
    /\ o !! "progress" = Some (JNum (progress r))
    /\ o !! "filename" = Some (JStr (filename r))
    /\ o !! "metadata" = Some (JObj (metadata r))
    /\ (is_Some (o !! "transcript") <-> status r = completed)
    /\ (is_Some (o !! "completedAt") <-> status r = completed)
    /\ (is_Some (o !! "error") <-> status r = failed).
Proof.
  intros r o. unfold status_response.
  destruct (toISOString (Some (createdAt r))) as [created|]; [|discriminate].
  destruct (status r); simpl;
    try (destruct (toISOString (completedAt r)) as [done|]; [|discriminate]);
    intros [= <-];
    repeat split; try reflexivity; try discriminate;
      try (intros [x Hx]; vm_compute in Hx; discriminate);
      intros _; eexists; reflexivity.
Qed.

(** A failed record shows its error and no transcript. *)
Lemma status_response_shape_witness :
  is_Some
    (<["error" := JStr failure_message]>
       ({[ "uploadId" := JStr "u1"; "status" := JStr "failed";
           "progress" := JNum (Fin 100); "filename" := JStr "memo.wav";
           "metadata" := JObj ∅; "createdAt" := JIso 1000 ]} : gmap string jsval)
     !! "error").
Proof.
  destruct (status_response_shape
              (set_progress (Fin 100)
                 (set_error (Some failure_message)
                    (set_status failed (sample_record 5000 true))))
              _ eq_refl) as (_ & _ & _ & _ & _ & _ & _ & H).
  apply H. reflexivity.
Defined.

(** X17. An accepted upload can be queried at once: a status query for the id of
    the 202 reply that takes neither the simulated-timeout branch nor the
    slow-down branch, and so looks the record up without waiting, answers 200
    with status [queued], progress 0, the name of the uploaded file, the
    merged metadata and the creation time. *)
Theorem accepted_upload_is_queryable :
  forall cfg JSON_parse env req st genv,
    reply_code (out_reply (post_uploads cfg JSON_parse env req st)) = Some 202 ->
    valid_time (now env) ->
    Qlt_bool (g_rnd_timeout genv) (timeoutRate cfg) = false ->
    Qlt_bool (g_rnd_slow genv) (2 # 10) = false ->
    exists audioFile,
      audio_of req = Some audioFile
      /\ out_stall
           (get_status cfg genv (uuid env)
              (out_engine (post_uploads cfg JSON_parse env req st))) = 0%Q
      /\ out_reply
           (get_status cfg genv (uuid env)
              (out_engine (post_uploads cfg JSON_parse env req st)))
         = Send 200
             (JObj {[ "uploadId" := JStr (uuid env);
                      "status" := JStr "queued";
                      "progress" := JNum (Fin 0);
                      "filename" := JStr (originalname audioFile);
                      "metadata" := JObj (build_metadata JSON_parse req);
                      "createdAt" := JIso (now env) ]}).
Proof.
  intros cfg JSON_parse env req st genv H202 Hnow Hg Hslow.
  destruct (post_accepted_inv _ _ _ _ _ H202)
    as (audioFile & Ha & _ & _ & _ & _ & Hst1).
  exists audioFile. split; [exact Ha|].
  rewrite Hst1, accept_engine. cbv zeta.
  unfold get_status. rewrite Hg, Hslow. cbn [out_reply out_stall].
  split; [reflexivity|]. unfold lookup_status.
  cbn [uploads]. unfold Map_get, Map_set. rewrite alist_get_set_same.
  unfold status_response. cbn [createdAt uploadRecord].
  rewrite (toISOString_valid _ Hnow). reflexivity.
Qed.

(** The sample upload, queried right after its acceptance. *)
Lemma accepted_upload_is_queryable_witness :
  exists audioFile,
    audio_of (mkRequest (Some (mkFiles (Some [sample_audio]) None)) ∅) = Some audioFile
    /\ out_stall
         (get_status CONFIG (mkGetEnv (1 # 2) (1 # 2) (1 # 2)) "u1"
            (out_engine
               (post_uploads CONFIG sample_parse
                  (mkPostEnv (1 # 2) (1 # 2) (1 # 2) (1 # 2) (1 # 2) "u1" 1000 (1 # 2) (1 # 2))
                  (mkRequest (Some (mkFiles (Some [sample_audio]) None)) ∅)
                  initial))) = 0%Q
    /\ out_reply
         (get_status CONFIG (mkGetEnv (1 # 2) (1 # 2) (1 # 2)) "u1"
            (out_engine
               (post_uploads CONFIG sample_parse
                  (mkPostEnv (1 # 2) (1 # 2) (1 # 2) (1 # 2) (1 # 2) "u1" 1000 (1 # 2) (1 # 2))
                  (mkRequest (Some (mkFiles (Some [sample_audio]) None)) ∅)
                  initial)))
       = Send 200
           (JObj {[ "uploadId" := JStr "u1";
                    "status" := JStr "queued";
                    "progress" := JNum (Fin 0);
                    "filename" := JStr (originalname audioFile);
                    "metadata" :=
                      JObj (build_metadata sample_parse
                              (mkRequest (Some (mkFiles (Some [sample_audio]) None)) ∅));
                    "createdAt" := JIso 1000 ]}).
Proof.
  apply (accepted_upload_is_queryable CONFIG sample_parse
           (mkPostEnv (1 # 2) (1 # 2) (1 # 2) (1 # 2) (1 # 2) "u1" 1000 (1 # 2) (1 # 2))
           (mkRequest (Some (mkFiles (Some [sample_audio]) None)) ∅)
           initial (mkGetEnv (1 # 2) (1 # 2) (1 # 2)) eq_refl).
  - unfold valid_time, max_time. simpl. lia.
  - reflexivity.
  - reflexivity.
Defined.

Lemma alist_set_absent {A : Type} (k : string) (v : A) (m : list (string * A)) :
  alist_get k m = None -> alist_set k v m = (m ++ [(k, v)])%list.
Proof.
  induction m as [|[k' v'] m IH]; simpl; [reflexivity|].
  destruct (String.eqb k k'); [discriminate|]. intros H. now rewrite IH.
Qed.

Lemma map_summary_snoc (l : list upload) (r : upload) (os : list jsval)
    (o : gmap string jsval) :
  map_summary l = Some os -> summary r = Some o ->
  map_summary (l ++ [r]) = Some (os ++ [JObj o])%list.
Proof.
  revert os. induction l as [|u l IH]; intros os Hl Hr; simpl in *.
  - injection Hl as <-. now rewrite Hr.
  - destruct (summary u) as [ou|]; [|discriminate].
    destruct (map_summary l) as [ol|]; [|discriminate].
    injection Hl as <-. now rewrite (IH ol eq_refl Hr).
Qed.

(** X18. An accepted upload whose id is new appends one record to the collection
    and one element to the listing, after all earlier ones: the listing shows
    the records in the order of their acceptance, and the new element has
    status [queued] and progress 0. *)
Theorem accepted_upload_extends_listing :
  forall cfg JSON_parse env req st l,
    reply_code (out_reply (post_uploads cfg JSON_parse env req st)) = Some 202 ->
    Map_get (uuid env) (uploads st) = None ->
    valid_time (now env) ->
    out_reply (list_uploads st) = Send 200 (JArr l) ->
    exists r o,
      uploads (out_engine (post_uploads cfg JSON_parse env req st))
      = (uploads st ++ [(uuid env, r)])%list
      /\ summary r = Some o
      /\ out_reply (list_uploads (out_engine (post_uploads cfg JSON_parse env req st)))
         = Send 200 (JArr (l ++ [JObj o]))
      /\ o !! "uploadId" = Some (JStr (uuid env))
      /\ o !! "status" = Some (JStr "queued")
      /\ o !! "progress" = Some (JNum (Fin 0)).
Proof.
  intros cfg JSON_parse env req st l H202 Hnew Hnow Hlist.
  destruct (post_accepted_inv _ _ _ _ _ H202)
    as (audioFile & _ & _ & _ & _ & _ & Hst1).
  rewrite Hst1, accept_engine. cbv zeta. cbn [uploads].
  set (r := uploadRecord _ _ _ _ _ _).
  assert (Hsum : summary r
                 = Some {[ "uploadId" := JStr (uuid env);
                           "filename" := JStr (originalname audioFile);
                           "status" := JStr "queued";
                           "progress" := JNum (Fin 0);
                           "createdAt" := JIso (now env) ]}).
  { unfold summary. subst r. cbn [createdAt uploadRecord].
    rewrite (toISOString_valid _ Hnow). reflexivity. }
  eexists r, _. unfold Map_set. rewrite (alist_set_absent _ _ _ Hnew).
  split; [reflexivity|]. split; [exact Hsum|].
  split; [|repeat split; reflexivity].
  unfold list_uploads in *. cbn [uploads]. unfold Map_values in *.
  rewrite map_app. simpl map.
  destruct (map_summary (map snd (uploads st))) as [os|] eqn:Hos;
    [|discriminate].
  injection Hlist as <-.
  now rewrite (map_summary_snoc _ _ _ _ Hos Hsum).
Qed.

(** The first upload makes a listing of one element. *)
Lemma accepted_upload_extends_listing_witness :
  exists r o,
    uploads
      (out_engine
         (post_uploads CONFIG sample_parse
            (mkPostEnv (1 # 2) (1 # 2) (1 # 2) (1 # 2) (1 # 2) "u1" 1000 (1 # 2) (1 # 2))
            (mkRequest (Some (mkFiles (Some [sample_audio]) None)) ∅)
            initial))
    = [("u1", r)]
    /\ out_reply
         (list_uploads
            (out_engine
               (post_uploads CONFIG sample_parse
                  (mkPostEnv (1 # 2) (1 # 2) (1 # 2) (1 # 2) (1 # 2) "u1" 1000 (1 # 2) (1 # 2))
                  (mkRequest (Some (mkFiles (Some [sample_audio]) None)) ∅)
                  initial)))
       = Send 200 (JArr [JObj o]).
Proof.
  destruct (accepted_upload_extends_listing CONFIG sample_parse
              (mkPostEnv (1 # 2) (1 # 2) (1 # 2) (1 # 2) (1 # 2) "u1" 1000 (1 # 2) (1 # 2))
              (mkRequest (Some (mkFiles (Some [sample_audio]) None)) ∅)
              initial [] eq_refl eq_refl)
    as (r & o & Hu & _ & Hl & _).
  - unfold valid_time, max_time. simpl. lia.
  - reflexivity.
  - exists r, o. split; [exact Hu | exact Hl].
Defined.

(** X19. The artificial delay of a request: 35 s in the simulated-timeout branch,
    otherwise nothing, or between 1 s and 3 s (both included) when the
    slow-down branch is taken; for [POST /uploads] outside its timeout branch
    between nothing and 3 s. *)
Theorem stall_is_bounded :
  forall cfg JSON_parse env uploadId st penv req,
    unit_interval (g_rnd_delay env) ->
    unit_interval (rnd_delay penv) ->
    let s := out_stall (get_status cfg env uploadId st) in
    let ps := out_stall (post_uploads cfg JSON_parse penv req st) in
    (Qlt_bool (g_rnd_timeout env) (timeoutRate cfg) = true -> (s == 35000)%Q)
    /\ (Qlt_bool (g_rnd_timeout env) (timeoutRate cfg) = false ->
        if Qlt_bool (g_rnd_slow env) (2 # 10)
        then (1000 <= s)%Q /\ (s <= 3000)%Q
        else (s == 0)%Q)
    /\ (Qlt_bool (rnd_timeout penv) (timeoutRate cfg) = true -> (ps == 35000)%Q)
    /\ (Qlt_bool (rnd_timeout penv) (timeoutRate cfg) = false ->
        (0 <= ps)%Q /\ (ps <= 3000)%Q).
Proof.
  intros cfg JSON_parse env uploadId st penv req (G0 & G1) (P0 & P1) s ps.
  subst s ps. unfold get_status, post_uploads. split; [|split; [|split]].
  - intros ->. reflexivity.
  - intros ->. cbn [out_stall].
    destruct (Qlt_bool (g_rnd_slow env) (2 # 10)); [split; lra | reflexivity].
  - intros ->. reflexivity.
  - intros ->. destruct (Qlt_bool (rnd_failure penv) (uploadFailureRate cfg)).
    { destruct (array_get errors _); cbn [out_stall]; split;
        (discriminate || reflexivity). }
    assert (H : (0 <= (if Qlt_bool (rnd_slow penv) (2 # 10)
                       then 1000 + rnd_delay penv * 2000 else 0))%Q
                /\ ((if Qlt_bool (rnd_slow penv) (2 # 10)
                     then 1000 + rnd_delay penv * 2000 else 0) <= 3000)%Q).
    { destruct (Qlt_bool (rnd_slow penv) (2 # 10)); split; try lra;
        (discriminate || reflexivity). }
    destruct (audio_of req) as [f|]; [|exact H].
    destruct (negb (supported (mimetype f))); [exact H|].
    destruct (accept cfg JSON_parse penv req f st). exact H.
Qed.

(** A slow status query with a delay draw of one half waits two seconds. *)
Lemma stall_is_bounded_witness :
  (1000 <= out_stall (get_status CONFIG (mkGetEnv (1 # 2) (1 # 10) (1 # 2)) "u1" initial))%Q
  /\ (out_stall (get_status CONFIG (mkGetEnv (1 # 2) (1 # 10) (1 # 2)) "u1" initial)
      <= 3000)%Q.
Proof.
  refine (proj1 (proj2 (stall_is_bounded CONFIG sample_parse
                          (mkGetEnv (1 # 2) (1 # 10) (1 # 2)) "u1" initial
                          (mkPostEnv (1 # 2) (1 # 2) (1 # 2) (1 # 2) (1 # 2) "u1" 1000 (1 # 2) (1 # 2))
                          (mkRequest None ∅) _ _)) eq_refl);
    split; (discriminate || reflexivity).
Defined.

(** ** Defaults of the metadata *)

(** X20. A field that the body has is stored with the value the body gives it,
    even one that is falsy, such as an empty language: the defaults of [||]
    show only for a field the body lacks (a config file aside). *)
Theorem body_field_wins_over_default :
  forall JSON_parse req k,
    config_props JSON_parse req !! k = None ->
    (forall v, req_body req !! k = Some v ->
               build_metadata JSON_parse req !! k = Some v)
    /\ (req_body req !! k = None ->
        build_metadata JSON_parse req !! k = default_metadata !! k).
Proof.
  intros JSON_parse req k Hcfg. rewrite build_metadata_merge.
  rewrite (lookup_union_r _ _ _ Hcfg). split.
  - intros v Hv. rewrite lookup_union_l' by (rewrite Hv; eauto). exact Hv.
  - intros Hnone. now apply lookup_union_r.
Qed.

(** An empty language in the body is kept, and the speaker count falls back
    to 1. *)
Lemma body_field_wins_over_default_witness :
  build_metadata sample_parse
    (mkRequest (Some (mkFiles (Some [sample_audio]) None))
       {[ "language" := JStr EmptyString ]}) !! "language"
  = Some (JStr EmptyString)
  /\ build_metadata sample_parse
       (mkRequest (Some (mkFiles (Some [sample_audio]) None))
          {[ "language" := JStr EmptyString ]}) !! "speakerCount"
     = Some (JNum (Fin 1)).
Proof.
  split.
  - exact (proj1 (body_field_wins_over_default sample_parse
                    (mkRequest (Some (mkFiles (Some [sample_audio]) None))
                       {[ "language" := JStr EmptyString ]}) "language" eq_refl)
             _ eq_refl).
  - exact (proj2 (body_field_wins_over_default sample_parse
                    (mkRequest (Some (mkFiles (Some [sample_audio]) None))
                       {[ "language" := JStr EmptyString ]}) "speakerCount" eq_refl)
             eq_refl).
Defined.
